(** * gbroadcast: token lifecycle, obfuscated local store, session context
      and contacts synchronisation

    A shallow embedding of the TypeScript sources

      - [src/utils/secureStorage.ts]   (obfuscated local store)
      - [src/utils/tokenUtils.ts]      (token lifecycle manager)
      - [src/context/AuthContext.tsx]  (login / logout of the session context)
      - [src/hooks/useContactsStorage.ts] (loader, pagination, labels)

    JavaScript values that cross the storage boundary are modelled by the
    inductive type [Value]; the browser's [localStorage] is a finite map
    from keys to strings together with the ways in which its operations
    may throw; exceptions are explicit ([Res]); the libraries the sources
    import (JSON, CryptoJS, jwt-decode) are the fields of the class [Libs].
    Every [Date.now()] of one synchronous call is the parameter [now]. *)

From Stdlib Require Import ZArith List Bool Ascii String Lia.
From stdpp Require Import gmap strings pretty.
Import ListNotations.

Set Warnings "-register-all".
Local Open Scope string_scope.
Local Open Scope Z_scope.
Local Open Scope list_scope.

(** ** JavaScript values *)

Inductive Value : Type :=
| VUndefined
| VNull
| VBool (b : bool)
| VNum (n : Z)
| VStr (s : string)
| VArr (items : list Value)
| VObj (fields : list (string * Value)).

(** [!s] on a string: only the empty string is falsy. *)
Definition nonempty (s : string) : bool :=
  match s with
  | EmptyString => false
  | String _ _ => true
  end.

(** ToBoolean. *)
Definition truthy (v : Value) : bool :=
  match v with
  | VUndefined | VNull => false
  | VBool b => b
  | VNum n => negb (n =? 0)
  | VStr s => nonempty s
  | VArr _ | VObj _ => true
  end.

(** [x === null]. *)
Definition is_null (v : Value) : bool :=
  match v with
  | VNull => true
  | _ => false
  end.

Fixpoint assoc (k : string) (fields : list (string * Value)) : option Value :=
  match fields with
  | [] => None
  | (k', v) :: rest => if String.eqb k k' then Some v else assoc k rest
  end.

(** Property read [v.k] on a value that is neither [null] nor [undefined]
    (own data properties only). *)
Definition get_field (v : Value) (k : string) : Value :=
  match v with
  | VObj fields => default VUndefined (assoc k fields)
  | _ => VUndefined
  end.

(** What [JSON.parse (JSON.stringify v)] is for a value [v] (ECMAScript,
    SerializeJSONProperty): a property whose value is [undefined] is left
    out of an object, an [undefined] array element becomes [null]. *)
Fixpoint json_clean (v : Value) : Value :=
  match v with
  | VArr items =>
      VArr (map (fun x => match x with
                          | VUndefined => VNull
                          | _ => json_clean x
                          end) items)
  | VObj fields =>
      VObj ((fix props (l : list (string * Value)) : list (string * Value) :=
               match l with
               | [] => []
               | (_, VUndefined) :: rest => props rest
               | (k, x) :: rest => (k, json_clean x) :: props rest
               end) fields)
  | _ => v
  end.

(** ** Exceptions *)

Inductive Exn : Type :=
| DOMException (name : string)
| Error (message : string).

Inductive Res (A : Type) : Type :=
| Throw (e : Exn)
| Ret (a : A).
Arguments Throw {A} e.
Arguments Ret {A} a.

(** ** Imported libraries and the browser environment *)

(** [CryptoJS.lib.WordArray] as far as the sources look at it: [sigBytes]
    and [toString(CryptoJS.enc.Utf8)], which throws on malformed UTF-8. *)
Record WordArray : Type := {
  sigBytes : Z;
  toUtf8 : option string
}.

(** [DecodedToken] of tokenUtils.ts; only [exp] is read. *)
Record DecodedToken : Type := {
  exp : option Z;
  iat : option Z
}.

Record Navigator : Type := {
  userAgent : string;
  language : string;
  colorDepth : Z;
  screenWidth : Z;
  screenHeight : Z
}.

Class Libs : Type := {
  (** [JSON.stringify] on a value other than [undefined] *)
  JSON_text : Value -> string;
  (** [JSON.parse]; [None] when it throws a SyntaxError *)
  JSON_parse : string -> option Value;
  (** [CryptoJS.SHA256(s).toString()] *)
  SHA256 : string -> string;
  (** [CryptoJS.AES.encrypt(text, key).toString()]; [None] when it throws *)
  AES_encrypt : string -> string -> option string;
  (** [CryptoJS.AES.decrypt(cipher, key)]; [None] when it throws *)
  AES_decrypt : string -> string -> option WordArray;
  (** [jwtDecode]; [None] when it throws InvalidTokenError *)
  jwtDecode : string -> option DecodedToken;
  (** [navigator] and [window.screen]; [None] when reading them throws *)
  navigator : option Navigator;
  (** decimal rendering of a number in string concatenation *)
  show_number : Z -> string
}.

(** [JSON.stringify(v)]: [undefined] for [undefined], a string otherwise. *)
Definition JSON_stringify `{Libs} (v : Value) : option string :=
  match v with
  | VUndefined => None
  | _ => Some (JSON_text v)
  end.

(** ** window.localStorage *)

Record Storage : Type := {
  items : gmap string string;
  (** [getItem] throws (storage disabled) *)
  getItem_throws : option Exn;
  (** [setItem key value] throws (quota exhausted, storage disabled) *)
  setItem_throws : string -> string -> option Exn;
  (** [removeItem key] throws *)
  removeItem_throws : string -> option Exn
}.

Definition with_items (st : Storage) (m : gmap string string) : Storage :=
  {| items := m;
     getItem_throws := getItem_throws st;
     setItem_throws := setItem_throws st;
     removeItem_throws := removeItem_throws st |}.

Module localStorage.

Definition getItem (st : Storage) (key : string) : Res (option string) :=
  match getItem_throws st with
  | Some e => Throw e
  | None => Ret (items st !! key)
  end.

Definition setItem (st : Storage) (key value : string) : Res Storage :=
  match setItem_throws st key value with
  | Some e => Throw e
  | None => Ret (with_items st (<[key := value]> (items st)))
  end.

Definition removeItem (st : Storage) (key : string) : Res Storage :=
  match removeItem_throws st key with
  | Some e => Throw e
  | None => Ret (with_items st (delete key (items st)))
  end.

End localStorage.

(** [if (!item)] on the result of [localStorage.getItem]: absent or empty. *)
Definition present (item : option string) : bool :=
  match item with
  | Some s => nonempty s
  | None => false
  end.

(** ** src/utils/secureStorage.ts *)

Definition FALLBACK_KEY : string := "gBroadcast-20250608-default-secure-key".

(** The double-quote character (code 34). *)
Definition dquote : string :=
  String (Ascii.Ascii false true false false false true false false) EmptyString.

(** The prefix that [decryptData] tests for: an opening brace, the quoted
    property name [_unencrypted], a colon and [true]. *)
Definition UNENCRYPTED_MARK : string :=
  "{" +:+ dquote +:+ "_unencrypted" +:+ dquote +:+ ":true".

Definition MAX_ITEM_SIZE : Z := 2 * 1024 * 1024.

Definition contactKeys : list string :=
  ["google_contacts"; "google_contact_groups"; "google_contacts_metadata"].

Section SecureStorage.
Context `{Libs}.

(** [getEncryptionKey]: SHA-256 of the browser fingerprint
    [[userAgent, language, colorDepth, width + 'x' + height].join('|')];
    [None] when reading the fingerprint throws. *)
Definition getEncryptionKey : option string :=
  nav ← navigator;
  Some (SHA256 (userAgent nav +:+ "|" +:+ language nav +:+ "|"
                +:+ show_number (colorDepth nav) +:+ "|"
                +:+ show_number (screenWidth nav) +:+ "x"
                +:+ show_number (screenHeight nav))).

(** [if (!key) key = FALLBACK_KEY]. *)
Definition key_or_fallback (key : string) : string :=
  if nonempty key then key else FALLBACK_KEY.

(** [encryptData]: the empty string for a falsy value; the AES text of the
    JSON text otherwise; when the [try] block throws, the JSON text of
    [{_unencrypted: true, data}]. *)
Definition encryptData (data : Value) : string :=
  if negb (truthy data) then EmptyString
  else
    let jsonString := JSON_text data in
    let attempt :=
      key ← getEncryptionKey;
      AES_encrypt jsonString (key_or_fallback key) in
    match attempt with
    | Some encrypted => encrypted
    | None => JSON_text (VObj [("_unencrypted", VBool true); ("data", data)])
    end.

(** The [try] block of [decryptData] after the test for the unencrypted
    form; [None] when it throws. *)
Definition decrypt_primary (encryptedData : string) : option Value :=
  key ← getEncryptionKey;
  decrypted ← AES_decrypt encryptedData (key_or_fallback key);
  if sigBytes decrypted <=? 0 then Some VNull
  else
    jsonString ← toUtf8 decrypted;
    if negb (nonempty jsonString) then Some VNull
    else JSON_parse jsonString.

(** The [catch] block of [decryptData]: a second attempt with the fixed
    key; every failure ends in [null]. *)
Definition decrypt_fallback (encryptedData : string) : Value :=
  let attempt :=
    decrypted ← AES_decrypt encryptedData FALLBACK_KEY;
    jsonString ← toUtf8 decrypted;
    if nonempty jsonString then JSON_parse jsonString else None in
  default VNull attempt.

Definition decryptData (encryptedData : string) : Value :=
  if negb (nonempty encryptedData) then VNull
  else if String.prefix UNENCRYPTED_MARK encryptedData then
    match JSON_parse encryptedData with
    | Some VNull | Some VUndefined | None => VNull
    | Some parsed => get_field parsed "data"
    end
  else
    match decrypt_primary encryptedData with
    | Some v => v
    | None => decrypt_fallback encryptedData
    end.

End SecureStorage.

Module directStorage.
Section with_libs.
Context `{Libs}.

(** [localStorage.setItem(key, JSON.stringify(value))]; an [undefined]
    argument of [setItem] is stored as the text [undefined]. *)
Definition setItem (st : Storage) (key : string) (value : Value) : Storage :=
  match localStorage.setItem st key (default "undefined" (JSON_stringify value)) with
  | Ret st' => st'
  | Throw _ => st
  end.

Definition getItem (st : Storage) (key : string) : Value :=
  match localStorage.getItem st key with
  | Ret (Some item) =>
      if nonempty item then default VNull (JSON_parse item) else VNull
  | Ret None => VNull
  | Throw _ => VNull
  end.

Definition removeItem (st : Storage) (key : string) : Storage :=
  match localStorage.removeItem st key with
  | Ret st' => st'
  | Throw _ => st
  end.

End with_libs.
End directStorage.

Definition is_quota_error (e : Exn) : bool :=
  match e with
  | DOMException name =>
      String.eqb name "QuotaExceededError" || String.eqb name "NS_ERROR_DOM_QUOTA_REACHED"
  | Error _ => false
  end.

Module secureStorage.
Section with_libs.
Context `{Libs}.

(** Each key is removed inside its own [try]. *)
Definition clearContactsData (st : Storage) : Storage :=
  fold_left (fun st key =>
               match localStorage.removeItem st key with
               | Ret st' => st'
               | Throw _ => st
               end) contactKeys st.

(** The [catch] block of [setItem]: direct storage, then the bulk clear
    when the error was a quota error. *)
Definition setItem_recover (st : Storage) (key : string) (value : Value)
    (error : Exn) : Storage :=
  let st1 := directStorage.setItem st key value in
  if is_quota_error error then clearContactsData st1 else st1.

(** [setItem]; the size warning only logs. *)
Definition setItem (st : Storage) (key : string) (value : Value) : Storage :=
  let encrypted := encryptData value in
  match localStorage.setItem st key encrypted with
  | Throw e => setItem_recover st key value e
  | Ret st1 =>
      match localStorage.getItem st1 key with
      | Throw e => setItem_recover st1 key value e
      | Ret test =>
          if present test then st1
          else setItem_recover st1 key value
                 (Error "Storage verification failed: item not found after storing")
      end
  end.

(** [getItem].  [directStorage.getItem] catches every exception itself,
    so the handlers around its two calls (which would remove the key)
    never run, and [getItem] leaves the storage as it is. *)
Definition getItem (st : Storage) (key : string) : Value :=
  match localStorage.getItem st key with
  | Throw _ => directStorage.getItem st key
  | Ret encrypted =>
      match encrypted with
      | Some text =>
          if nonempty text then
            let decrypted := decryptData text in
            if is_null decrypted then directStorage.getItem st key
            else decrypted
          else VNull
      | None => VNull
      end
  end.

Definition removeItem (st : Storage) (key : string) : Storage :=
  match localStorage.removeItem st key with
  | Ret st' => st'
  | Throw _ => st
  end.

(** Both removals share one [try]: a throw of the first skips the second. *)
Definition clearAuthData (st : Storage) : Storage :=
  match localStorage.removeItem st "user" with
  | Throw _ => st
  | Ret st1 =>
      match localStorage.removeItem st1 "auth_tokens" with
      | Throw _ => st1
      | Ret st2 => st2
      end
  end.

End with_libs.
End secureStorage.

(** ** src/utils/tokenUtils.ts *)

Record TokenData : Type := {
  token : string;
  refreshToken : option string;
  expiresAt : Z
}.

(** The object literal [{ token, refreshToken, expiresAt }]. *)
Definition TokenData_to_Value (td : TokenData) : Value :=
  VObj [("token", VStr (token td));
        ("refreshToken", match refreshToken td with
                         | Some r => VStr r
                         | None => VUndefined
                         end);
        ("expiresAt", VNum (expiresAt td))].

(** The cast [as TokenData] of a stored value, read as a decoder: a value
    that has not the declared shape is outside the interface and is read
    as no bundle.  The source checks nothing there and would use such a
    value as it is, so what is stated about a stored bundle is stated
    for a value of the declared shape, a string token with a numeric
    expiry. *)
Definition TokenData_of_Value (v : Value) : option TokenData :=
  match get_field v "token", get_field v "expiresAt" with
  | VStr t, VNum e =>
      Some {| token := t;
              refreshToken := match get_field v "refreshToken" with
                              | VStr r => Some r
                              | _ => None
                              end;
              expiresAt := e |}
  | _, _ => None
  end.

(** [new Date(t).toISOString()] throws a RangeError outside the time
    range of ECMAScript dates, 8.64e15 ms on either side of the epoch. *)
Definition valid_time (t : Z) : bool :=
  (-8640000000000000 <=? t) && (t <=? 8640000000000000).

Section TokenUtils.
Context `{Libs}.

Definition getTokenExpiration (now : Z) (token : string) : Z :=
  let fallback := now + 3600 * 1000 in
  match jwtDecode token with
  | Some decoded =>
      match exp decoded with
      | Some e => if negb (e =? 0) then e * 1000 else fallback
      | None => fallback
      end
  | None => fallback
  end.

(** [storeTokens]: the log line renders the expiry with [toISOString],
    which throws for an expiry that is no valid time; the handler then
    stores the minimal bundle. [secureStorage.setItem] itself never
    throws. *)
Definition storeTokens (st : Storage) (now : Z) (token : string)
    (refreshToken : option string) : Storage :=
  let expiresAt := getTokenExpiration now token in
  if valid_time expiresAt then
    secureStorage.setItem st "auth_tokens"
      (TokenData_to_Value {| token := token; refreshToken := refreshToken;
                             expiresAt := expiresAt |})
  else
    secureStorage.setItem st "auth_tokens"
      (TokenData_to_Value {| token := token; refreshToken := None;
                             expiresAt := now + 3600 * 1000 |}).

Definition getStoredTokens (st : Storage) : option TokenData :=
  let tokenData := secureStorage.getItem st "auth_tokens" in
  if negb (truthy tokenData) || negb (truthy (get_field tokenData "token"))
  then None
  else TokenData_of_Value tokenData.

Definition isTokenExpired (st : Storage) (now : Z)
    (tokenData : option TokenData) : bool :=
  let tokenData :=
    match tokenData with
    | Some td => Some td
    | None => getStoredTokens st
    end in
  match tokenData with
  | None => true
  | Some td =>
      if negb (nonempty (token td)) then true
      else
        let expirationBuffer := 5 * 60 * 1000 in
        now + expirationBuffer >=? expiresAt td
  end.

(** [clearTokens]: [secureStorage.removeItem] swallows every exception,
    so the handler with the direct [localStorage.removeItem] never runs. *)
Definition clearTokens (st : Storage) : Storage :=
  secureStorage.removeItem st "auth_tokens".

(** The four removals share one [try]. *)
Definition clearAllAuthData (st : Storage) : Storage :=
  let st1 := secureStorage.removeItem st "auth_tokens" in
  let st2 := secureStorage.removeItem st1 "user" in
  match localStorage.removeItem st2 "auth_tokens" with
  | Throw _ => st2
  | Ret st3 =>
      match localStorage.removeItem st3 "user" with
      | Throw _ => st3
      | Ret st4 => st4
      end
  end.

End TokenUtils.

(** ** src/types/auth.ts and src/context/AuthContext.tsx *)

Record User : Type := {
  id : string;
  name : string;
  email : string;
  picture : string
}.

Record AuthTokens : Type := {
  access_token : string;
  refresh_token : option string;
  id_token : option string;
  expires_at : Z
}.

Record AuthState : Type := {
  user : option User;
  tokens : option AuthTokens;
  isAuthenticated : bool
}.

Definition User_to_Value (u : User) : Value :=
  VObj [("id", VStr (id u)); ("name", VStr (name u));
        ("email", VStr (email u)); ("picture", VStr (picture u))].

(** What [AuthProvider] holds: its two pieces of React state, the
    [mountedRef] flag, the routes handed to [navigate] (latest first), and
    the browser storage it writes through. *)
Record AuthProvider : Type := {
  authState : AuthState;
  authError : option string;
  mountedRef : bool;
  navigated : list string;
  storage : Storage
}.

Definition unauthenticated : AuthState :=
  {| user := None; tokens := None; isAuthenticated := false |}.

Definition setAuthState (p : AuthProvider) (s : AuthState) : AuthProvider :=
  {| authState := s; authError := authError p; mountedRef := mountedRef p;
     navigated := navigated p; storage := storage p |}.

Definition setAuthError (p : AuthProvider) (e : option string) : AuthProvider :=
  {| authState := authState p; authError := e; mountedRef := mountedRef p;
     navigated := navigated p; storage := storage p |}.

Definition navigate (p : AuthProvider) (route : string) : AuthProvider :=
  {| authState := authState p; authError := authError p;
     mountedRef := mountedRef p; navigated := route :: navigated p;
     storage := storage p |}.

Definition setStorage (p : AuthProvider) (st : Storage) : AuthProvider :=
  {| authState := authState p; authError := authError p;
     mountedRef := mountedRef p; navigated := navigated p; storage := st |}.

Definition clearAuthError (p : AuthProvider) : AuthProvider :=
  if mountedRef p then setAuthError p None else p.

Section AuthContext.
Context `{Libs}.

(** [login]; [userData] is [None] for a null user.  Neither
    [secureStorage.setItem] nor [storeTokens] throws, so the handler of
    the [try] block never runs. *)
Definition login (p : AuthProvider) (now : Z) (accessToken : string)
    (userData : option User) : AuthProvider :=
  if negb (nonempty accessToken) then
    if mountedRef p
    then setAuthError p (Some "Authentication failed: Missing access token")
    else p
  else
    match userData with
    | Some u =>
        if nonempty (email u) then
          let st1 := secureStorage.setItem (storage p) "user" (User_to_Value u) in
          let st2 := storeTokens st1 now accessToken None in
          let p1 := setStorage p st2 in
          let p2 :=
            if mountedRef p1 then
              clearAuthError
                (setAuthState p1
                   {| user := Some u;
                      tokens := Some {| access_token := accessToken;
                                        refresh_token := None;
                                        id_token := None;
                                        expires_at := now + 3600 * 1000 |};
                      isAuthenticated := true |})
            else p1 in
          navigate p2 "/"
        else
          if mountedRef p
          then setAuthError p (Some "Authentication failed: Missing user information")
          else p
    | None =>
        if mountedRef p
        then setAuthError p (Some "Authentication failed: Missing user information")
        else p
    end.

(** [logout]; the two removals swallow their exceptions, so the handler
    of the [try] block (which only navigates) never runs. *)
Definition logout (p : AuthProvider) : AuthProvider :=
  let st1 := secureStorage.removeItem (storage p) "user" in
  let st2 := clearTokens st1 in
  let p1 := setStorage p st2 in
  let p2 := if mountedRef p1 then setAuthState p1 unauthenticated else p1 in
  navigate p2 "/login".

End AuthContext.

(** ** src/types/contacts.ts *)

Record ContactGroup : Type := {
  group_resourceName : string;
  group_updateTime : string;
  groupType : string;
  group_name : string;
  memberCount : Z
}.

Record ContactOrganization : Type := {
  org_name : option string;
  org_title : option string;
  org_department : option string;
  org_primary : option bool
}.

Record EmailAddress : Type := {
  email_value : string;
  email_type : option string;
  email_primary : option bool
}.

Record ContactGroupMembership : Type := {
  contactGroupResourceName : option string
}.

(** An element of [memberships]; the API may leave the sub-field out
    (domain memberships), which is what the guard of [getContactLabels]
    is for. *)
Record Membership : Type := {
  contactGroupMembership : option ContactGroupMembership
}.

Record Contact : Type := {
  resourceName : string;
  names : option (list string);
  photos : option (list string);
  emailAddresses : option (list EmailAddress);
  phoneNumbers : option (list string);
  organizations : option (list ContactOrganization);
  memberships : option (list Membership);
  userDefined : option (list (string * string));
  _localUpdatedAt : option Z;
  _isDirty : option bool
}.

Record ContactLabel : Type := {
  label_name : string;
  label_type : option string
}.

(** ** src/hooks/useContactsStorage.ts *)

Definition STORAGE_KEY_CONTACTS : string := "google_contacts".
Definition STORAGE_KEY_GROUPS : string := "google_contact_groups".
Definition STORAGE_KEY_METADATA : string := "google_contacts_metadata".

Definition SYSTEM_GROUP_PREFIXES : list string :=
  ["contactGroups/myContacts"; "contactGroups/starred"].

(** *** getContactLabels *)

(** [s.split('/')]. *)
Fixpoint split_slash (s : string) : list string :=
  match s with
  | EmptyString => [EmptyString]
  | String c rest =>
      if Ascii.eqb c "/"%char then EmptyString :: split_slash rest
      else match split_slash rest with
           | [] => [String c EmptyString]
           | piece :: pieces => String c piece :: pieces
           end
  end.

(** The template literal [`Group ${groupResourceName.split('/')[1]}`]; a
    missing second piece is rendered as [undefined]. *)
Definition fallback_label (groupResourceName : string) : string :=
  "Group " +:+ default "undefined" (split_slash groupResourceName !! 1%nat).

Definition is_system_group (groupResourceName : string) : bool :=
  existsb (fun prefix => String.prefix prefix groupResourceName)
          SYSTEM_GROUP_PREFIXES.

(** The label pushed for a membership that is kept.  The groups are
    looked up among the own keys of [contactGroups]; a resource name that
    is a member every object inherits ([toString] and the like) is not
    modelled apart. *)
Definition group_label (groups : gmap string ContactGroup)
    (groupResourceName : string) : ContactLabel :=
  match groups !! groupResourceName with
  | Some group =>
      {| label_name := if nonempty (group_name group) then group_name group
                       else fallback_label groupResourceName;
         label_type := Some "group" |}
  | None =>
      {| label_name := fallback_label groupResourceName;
         label_type := Some "group" |}
  end.

(** One turn of the [for ... of] loop: [continue] leaves [labels] as it
    is, [labels.push] appends. *)
Definition label_step (groups : gmap string ContactGroup)
    (labels : list ContactLabel) (membership : Membership) : list ContactLabel :=
  match contactGroupMembership membership with
  | None => labels
  | Some cgm =>
      match contactGroupResourceName cgm with
      | None => labels
      | Some groupResourceName =>
          if negb (nonempty groupResourceName) then labels
          else if is_system_group groupResourceName then labels
          else labels ++ [group_label groups groupResourceName]
      end
  end.

(** [getContactLabels]; [groups] is the [contactGroups] state the
    callback closes over, read by its own keys. *)
Definition getContactLabels (groups : gmap string ContactGroup)
    (contact : Contact) : list ContactLabel :=
  match memberships contact with
  | Some ms => fold_left (label_step groups) ms []
  | None => []
  end.

(** *** loadFromStorage *)

(** The state of the hook that the loader writes.  The casts of the
    loader ([as Contact[] | null] and the like) are not checked at run
    time, so the state holds the decoded values as they are. *)
Record ContactsHook : Type := {
  contacts : Value;
  contactGroups : Value;
  isLoading : bool;
  isInitialized : bool;
  error : option string;
  lastSyncTime : Value
}.

Definition initialHook : ContactsHook :=
  {| contacts := VArr []; contactGroups := VObj []; isLoading := true;
     isInitialized := false; error := None; lastSyncTime := VNull |}.

Definition setContacts (v : Value) (h : ContactsHook) : ContactsHook :=
  {| contacts := v; contactGroups := contactGroups h; isLoading := isLoading h;
     isInitialized := isInitialized h; error := error h;
     lastSyncTime := lastSyncTime h |}.

Definition setContactGroups (v : Value) (h : ContactsHook) : ContactsHook :=
  {| contacts := contacts h; contactGroups := v; isLoading := isLoading h;
     isInitialized := isInitialized h; error := error h;
     lastSyncTime := lastSyncTime h |}.

Definition setIsLoading (b : bool) (h : ContactsHook) : ContactsHook :=
  {| contacts := contacts h; contactGroups := contactGroups h; isLoading := b;
     isInitialized := isInitialized h; error := error h;
     lastSyncTime := lastSyncTime h |}.

Definition setIsInitialized (b : bool) (h : ContactsHook) : ContactsHook :=
  {| contacts := contacts h; contactGroups := contactGroups h;
     isLoading := isLoading h; isInitialized := b; error := error h;
     lastSyncTime := lastSyncTime h |}.

Definition setError (e : option string) (h : ContactsHook) : ContactsHook :=
  {| contacts := contacts h; contactGroups := contactGroups h;
     isLoading := isLoading h; isInitialized := isInitialized h; error := e;
     lastSyncTime := lastSyncTime h |}.

Definition setLastSyncTime (v : Value) (h : ContactsHook) : ContactsHook :=
  {| contacts := contacts h; contactGroups := contactGroups h;
     isLoading := isLoading h; isInitialized := isInitialized h;
     error := error h; lastSyncTime := v |}.

(** [storedContacts.length > 0] on a truthy value; a [length] that is not
    a number is taken as not positive. *)
Definition length_positive (v : Value) : bool :=
  match v with
  | VArr l => (0 <? length l)%nat
  | VStr s => (0 <? String.length s)%nat
  | VObj fields =>
      match assoc "length" fields with
      | Some (VNum n) => 0 <? n
      | _ => false
      end
  | _ => false
  end.

Definition CORRUPTED_MESSAGE : string :=
  "Some contact data was corrupted and has been cleared. Syncing from server...".

Definition LOAD_FAILED_MESSAGE : string :=
  "Failed to load contacts from local storage".

(** Where the [try] block of the loader stands after one key. *)
Inductive LoadStep : Type :=
| LoadThrew (h : ContactsHook)
| Loaded (h : ContactsHook) (hasCorruptedData : bool).

Section Loader.
Context `{Libs}.

(** The pattern the loader repeats for each key: keep a truthy decoded
    value; otherwise a key that is still present in raw storage marks the
    data as corrupted. *)
Definition load_key (st : Storage) (key : string)
    (keep : Value -> ContactsHook -> ContactsHook)
    (h : ContactsHook) (hasCorruptedData : bool) : LoadStep :=
  let stored := secureStorage.getItem st key in
  if truthy stored then Loaded (keep stored h) hasCorruptedData
  else
    match localStorage.getItem st key with
    | Throw _ => LoadThrew h
    | Ret item => Loaded h (if present item then true else hasCorruptedData)
    end.

(** The [catch] block of the loader. *)
Definition load_failed (st : Storage) (h : ContactsHook) : Storage * ContactsHook :=
  (secureStorage.clearContactsData st,
   setIsLoading false (setError (Some LOAD_FAILED_MESSAGE) h)).

(** The end of the [try] block: the bulk clear and the message when
    something was corrupted, [setIsInitialized], and the end of loading
    when contacts were read ([storedContacts] is the value read for the
    contacts key at the start). *)
Definition load_finish (st : Storage) (h : ContactsHook)
    (hasCorruptedData : bool) : Storage * ContactsHook :=
  let (st', h4) :=
    if hasCorruptedData
    then (secureStorage.clearContactsData st,
          setError (Some CORRUPTED_MESSAGE) h)
    else (st, h) in
  let h5 := setIsInitialized true h4 in
  let storedContacts := secureStorage.getItem st STORAGE_KEY_CONTACTS in
  (st', if truthy storedContacts && length_positive storedContacts
        then setIsLoading false h5
        else h5).

Definition loadFromStorage (st : Storage) (h : ContactsHook)
    : Storage * ContactsHook :=
  match load_key st STORAGE_KEY_CONTACTS setContacts h false with
  | LoadThrew h1 => load_failed st h1
  | Loaded h1 c1 =>
  match load_key st STORAGE_KEY_GROUPS setContactGroups h1 c1 with
  | LoadThrew h2 => load_failed st h2
  | Loaded h2 c2 =>
  match load_key st STORAGE_KEY_METADATA
          (fun metadata => setLastSyncTime (get_field metadata "lastSyncTime"))
          h2 c2 with
  | LoadThrew h3 => load_failed st h3
  | Loaded h3 hasCorruptedData => load_finish st h3 hasCorruptedData
  end end end.

End Loader.

(** *** fetchAllContacts *)

Record PageResponse : Type := {
  connections : option (list Contact);
  nextPageToken : option string;
  totalItems : option Z;
  totalPeople : option Z
}.

(** What the pagination loop runs against.  [fetchWithToken] (of
    useSecureApi) resolves to the parsed body or to [null] and never
    rejects; the component may be unmounted while the loop awaits, so
    [isMountedRef.current] is read from the world. *)
Class Runtime (World : Type) : Type := {
  fetchWithToken : string -> World -> option PageResponse * World;
  isMounted : World -> bool;
  (** [await new Promise(resolve => setTimeout(resolve, ms))] *)
  sleep : Z -> World -> World;
  encodeURIComponent : string -> string
}.

Inductive FetchResult : Type :=
| Returned (allContacts : list Contact)
| Rejected (e : Exn)
| OutOfFuel.

Record FetchOutcome (World : Type) : Type := {
  result : FetchResult;
  world : World;
  syncProgress : option (Z * Z)
}.
Arguments result {World} _.
Arguments world {World} _.
Arguments syncProgress {World} _.

Definition maxPages : nat := 100.

Definition CONNECTIONS_URL : string :=
  "https://people.googleapis.com/v1/people/me/connections?personFields=names,photos,emailAddresses,phoneNumbers,memberships,userDefined,organizations&pageSize=2000".

(** [if (nextPageToken)]: present and not empty. *)
Definition has_token (pageToken : option string) : bool :=
  match pageToken with
  | Some t => nonempty t
  | None => false
  end.

Section Pagination.
Context {World : Type} `{Runtime World}.

Definition pageUrl (pageToken : option string) : string :=
  match pageToken with
  | Some t =>
      if nonempty t
      then CONNECTIONS_URL +:+ "&pageToken=" +:+ encodeURIComponent t
      else CONNECTIONS_URL
  | None => CONNECTIONS_URL
  end.

(** The code after the loop: clear the progress when still mounted. *)
Definition fetch_done (w : World) (allContacts : list Contact)
    (progress : option (Z * Z)) : FetchOutcome World :=
  {| result := Returned allContacts; world := w;
     syncProgress := if isMounted w then None else progress |}.

(** The branch on [response.connections]: append the page, take the
    server's total once, publish the progress when still mounted.  The
    result is the new [allContacts], [totalEstimated] and progress. *)
Definition take_page (w : World) (response : PageResponse)
    (allContacts : list Contact) (totalEstimated : Z)
    (progress : option (Z * Z)) : list Contact * Z * option (Z * Z) :=
  match connections response with
  | Some newContacts =>
      let allContacts := allContacts ++ newContacts in
      let totalEstimated :=
        match totalPeople response with
        | Some n =>
            if negb (n =? 0) && (totalEstimated =? 0) then n
            else totalEstimated
        | None => totalEstimated
        end in
      let current := Z.of_nat (length allContacts) in
      (allContacts, totalEstimated,
       if isMounted w
       then Some (current,
                  if negb (totalEstimated =? 0) then totalEstimated
                  else current * 2)
       else progress)
  | None => (allContacts, totalEstimated, progress)
  end.

(** The [do ... while] loop; [pageToken] is the variable [nextPageToken]
    of the source, [fuel] bounds the number of turns. *)
Fixpoint fetch_pages (fuel : nat) (w : World) (allContacts : list Contact)
    (pageToken : option string) (pageCount : nat) (totalEstimated : Z)
    (progress : option (Z * Z)) : FetchOutcome World :=
  match fuel with
  | O => {| result := OutOfFuel; world := w; syncProgress := progress |}
  | S fuel' =>
      if negb (isMounted w) then
        {| result := Returned allContacts; world := w; syncProgress := progress |}
      else
        let url := pageUrl pageToken in
        let pageCount := S pageCount in
        let (response, w) := fetchWithToken url w in
        match response with
        | None =>
            {| result := Rejected (Error "Failed to fetch contacts page");
               world := w;
               syncProgress := if isMounted w then None else progress |}
        | Some response =>
            let '(allContacts, totalEstimated, progress) :=
              take_page w response allContacts totalEstimated progress in
            let pageToken := nextPageToken response in
            if (maxPages <=? pageCount)%nat then
              fetch_done w allContacts progress
            else
              let w := if has_token pageToken && isMounted w
                       then sleep 100 w else w in
              if has_token pageToken && isMounted w then
                fetch_pages fuel' w allContacts pageToken pageCount
                            totalEstimated progress
              else fetch_done w allContacts progress
        end
  end.

(** [fetchAllContacts]: every turn of the loop adds one to [pageCount] and
    the loop is left once [pageCount >= maxPages], so [maxPages] turns of
    fuel are never used up ([fetchAllContacts_returns]). *)
Definition fetchAllContacts (w : World) (progress : option (Z * Z))
    : FetchOutcome World :=
  fetch_pages maxPages w [] None 0 0 progress.

(** The log of a run in which every request carries the continuation
    token of the response before it. *)
Fixpoint chained (pageToken : option string)
    (log : list (string * option PageResponse)) : Prop :=
  match log with
  | [] => True
  | (url, response) :: rest =>
      url = pageUrl pageToken /\ chained (response ≫= nextPageToken) rest
  end.

(** The log of serving [pages] one after the other. *)
Fixpoint serve (pageToken : option string) (pages : list PageResponse)
    : list (string * option PageResponse) :=
  match pages with
  | [] => []
  | r :: rest => (pageUrl pageToken, Some r) :: serve (nextPageToken r) rest
  end.

End Pagination.

(** ** A simulated People API *)

(** The world of a test double: the requests made so far with the answer
    given to each (oldest first), and the number of requests after which
    the component has been unmounted, if it is. *)
Record SimWorld : Type := {
  transcript : list (string * option PageResponse);
  unmountAfter : option nat
}.

Definition requests (w : SimWorld) : list string := map fst (transcript w).

(** [api n url] is the answer to the request number [n] (from 0). *)
Definition simRuntime (api : nat -> string -> option PageResponse)
    (encode : string -> string) : Runtime SimWorld :=
  {| fetchWithToken := fun url w =>
       let response := api (length (transcript w)) url in
       (response, {| transcript := transcript w ++ [(url, response)];
                     unmountAfter := unmountAfter w |});
     isMounted := fun w =>
       match unmountAfter w with
       | Some k => (length (transcript w) <? k)%nat
       | None => true
       end;
     sleep := fun _ w => w;
     encodeURIComponent := encode |}.

Definition simStart : SimWorld := {| transcript := []; unmountAfter := None |}.

(** An API that serves the given pages in order, whatever is asked. *)
Definition paged_api (pages : list PageResponse) (n : nat) (_ : string)
    : option PageResponse := pages !! n.

(** The contacts a response carries. *)
Definition contacts_of (response : option PageResponse) : list Contact :=
  match response with
  | Some r => default [] (connections r)
  | None => []
  end.
Arguments contacts_of : simpl never.

(** ** Simulated libraries

    A double for [Libs], on which the closed examples below run: a JSON
    printer and parser for the values of [Value] (no white space, the
    escapes of the double quote and the backslash only), a reversible toy
    cipher whose texts carry the prefix of CryptoJS's salted format, a
    checksum in place of SHA-256, and a token decoder that reads the
    claims from the second of three dot-separated segments. *)

Module Sim.

Definition backslash : ascii := "\"%char.
Definition quote : ascii := Ascii.Ascii false true false false false true false false.

Fixpoint escape (s : string) : string :=
  match s with
  | EmptyString => EmptyString
  | String c rest =>
      if Ascii.eqb c quote || Ascii.eqb c backslash
      then String backslash (String c (escape rest))
      else String c (escape rest)
  end.

Fixpoint join (sep : string) (pieces : list string) : string :=
  match pieces with
  | [] => EmptyString
  | [p] => p
  | p :: rest => p +:+ sep +:+ join sep rest
  end.

Fixpoint JSON_text (v : Value) : string :=
  match v with
  | VUndefined | VNull => "null"
  | VBool true => "true"
  | VBool false => "false"
  | VNum n => pretty n
  | VStr s => String quote (escape s) +:+ String quote EmptyString
  | VArr items => "[" +:+ join "," (map JSON_text items) +:+ "]"
  | VObj fields =>
      "{" +:+ join ","
        ((fix props (l : list (string * Value)) : list string :=
            match l with
            | [] => []
            | (_, VUndefined) :: rest => props rest
            | (k, x) :: rest =>
                (String quote (escape k) +:+ String quote EmptyString
                   +:+ ":" +:+ JSON_text x) :: props rest
            end) fields) +:+ "}"
  end.

(** Reads a string body up to the closing quote. *)
Fixpoint read_string (s : string) : option (string * string) :=
  match s with
  | EmptyString => None
  | String c rest =>
      if Ascii.eqb c quote then Some (EmptyString, rest)
      else if Ascii.eqb c backslash then
        match rest with
        | String d rest' =>
            '(body, tail) ← read_string rest'; Some (String d body, tail)
        | EmptyString => None
        end
      else '(body, tail) ← read_string rest; Some (String c body, tail)
  end.

Definition digit_of (c : ascii) : option Z :=
  let n := Z.of_nat (nat_of_ascii c) in
  if (48 <=? n) && (n <=? 57) then Some (n - 48) else None.

Fixpoint read_digits (acc : Z) (s : string) : Z * string :=
  match s with
  | String c rest =>
      match digit_of c with
      | Some d => read_digits (acc * 10 + d) rest
      | None => (acc, s)
      end
  | EmptyString => (acc, s)
  end.

Definition read_number (s : string) : option (Z * string) :=
  match s with
  | String c rest =>
      if Ascii.eqb c "-"%char then
        match rest with
        | String d _ =>
            match digit_of d with
            | Some _ => let (n, tail) := read_digits 0 rest in Some (- n, tail)
            | None => None
            end
        | EmptyString => None
        end
      else
        match digit_of c with
        | Some _ => Some (read_digits 0 s)
        | None => None
        end
  | EmptyString => None
  end.

Definition strip_prefix (p s : string) : option string :=
  if String.prefix p s
  then Some (String.substring (String.length p) (String.length s - String.length p) s)
  else None.

Fixpoint parse_value (fuel : nat) (s : string) : option (Value * string) :=
  match fuel with
  | O => None
  | S fuel' =>
      match s with
      | String c rest =>
          if Ascii.eqb c quote then
            '(body, tail) ← read_string rest; Some (VStr body, tail)
          else if Ascii.eqb c "["%char then
            match rest with
            | String "]"%char tail => Some (VArr [], tail)
            | _ => '(items, tail) ← parse_items fuel' rest; Some (VArr items, tail)
            end
          else if Ascii.eqb c "{"%char then
            match rest with
            | String "}"%char tail => Some (VObj [], tail)
            | _ => '(fields, tail) ← parse_members fuel' rest; Some (VObj fields, tail)
            end
          else
            match strip_prefix "null" s, strip_prefix "true" s, strip_prefix "false" s with
            | Some tail, _, _ => Some (VNull, tail)
            | _, Some tail, _ => Some (VBool true, tail)
            | _, _, Some tail => Some (VBool false, tail)
            | _, _, _ => '(n, tail) ← read_number s; Some (VNum n, tail)
            end
      | EmptyString => None
      end
  end
with parse_items (fuel : nat) (s : string) : option (list Value * string) :=
  match fuel with
  | O => None
  | S fuel' =>
      '(v, tail) ← parse_value fuel' s;
      match tail with
      | String "]"%char tail' => Some ([v], tail')
      | String ","%char tail' =>
          '(more, tail'') ← parse_items fuel' tail'; Some (v :: more, tail'')
      | _ => None
      end
  end
with parse_members (fuel : nat) (s : string)
    : option (list (string * Value) * string) :=
  match fuel with
  | O => None
  | S fuel' =>
      match s with
      | String c rest =>
          if Ascii.eqb c quote then
            '(k, tail) ← read_string rest;
            match tail with
            | String ":"%char tail' =>
                '(v, tail'') ← parse_value fuel' tail';
                match tail'' with
                | String "}"%char tail3 => Some ([(k, v)], tail3)
                | String ","%char tail3 =>
                    '(more, tail4) ← parse_members fuel' tail3;
                    Some ((k, v) :: more, tail4)
                | _ => None
                end
            | _ => None
            end
          else None
      | EmptyString => None
      end
  end.

Definition JSON_parse (s : string) : option Value :=
  match parse_value (S (String.length s)) s with
  | Some (v, EmptyString) => Some v
  | _ => None
  end.

(** The toy cipher: the salted-format prefix, the key, a colon, the text. *)
Definition SALTED : string := "U2FsdGVkX1".

Definition AES_encrypt (text key : string) : option string :=
  Some (SALTED +:+ key +:+ ":" +:+ text).

(** A text that is not of that form, or not under that key, decrypts to
    the empty word array. *)
Definition AES_decrypt (cipher key : string) : option WordArray :=
  match strip_prefix (SALTED +:+ key +:+ ":") cipher with
  | Some text =>
      Some {| sigBytes := Z.of_nat (String.length text); toUtf8 := Some text |}
  | None => Some {| sigBytes := 0; toUtf8 := Some EmptyString |}
  end.

Fixpoint checksum (s : string) : Z :=
  match s with
  | EmptyString => 7
  | String c rest => (Z.of_nat (nat_of_ascii c) + 31 * checksum rest) mod 1000000007
  end.

Definition SHA256 (s : string) : string := "k" +:+ pretty (checksum s).

Fixpoint split_dot (s : string) : list string :=
  match s with
  | EmptyString => [EmptyString]
  | String c rest =>
      if Ascii.eqb c "."%char then EmptyString :: split_dot rest
      else match split_dot rest with
           | [] => [String c EmptyString]
           | piece :: pieces => String c piece :: pieces
           end
  end.

Definition number_field (v : Value) (k : string) : option Z :=
  match get_field v k with
  | VNum n => Some n
  | _ => None
  end.

Definition jwtDecode (token : string) : option DecodedToken :=
  match split_dot token with
  | [_; payload; _] =>
      match JSON_parse payload with
      | Some (VObj fields) =>
          Some {| exp := number_field (VObj fields) "exp";
                  iat := number_field (VObj fields) "iat" |}
      | _ => None
      end
  | _ => None
  end.

Definition browser : Navigator :=
  {| userAgent := "Mozilla/5.0"; language := "en-US"; colorDepth := 24;
     screenWidth := 1920; screenHeight := 1080 |}.

Definition libs : Libs :=
  Build_Libs JSON_text JSON_parse SHA256 AES_encrypt AES_decrypt jwtDecode
             (Some browser) pretty.

(** A working, empty [localStorage]. *)
Definition emptyStorage : Storage :=
  {| items := ∅; getItem_throws := None;
     setItem_throws := fun _ _ => None;
     removeItem_throws := fun _ => None |}.

(** A [localStorage] holding [m] whose [removeItem] always throws. *)
Definition stuckStorage (m : gmap string string) : Storage :=
  {| items := m; getItem_throws := None;
     setItem_throws := fun _ _ => None;
     removeItem_throws := fun _ => Some (DOMException "SecurityError") |}.

(** A token that carries the claim [exp]. *)
Definition jwt (e : Z) : string :=
  "hdr." +:+ JSON_text (VObj [("exp", VNum e)]) +:+ ".sig".

End Sim.

(** ** Readings of the specification

    Definitions that follow the words of the specification, to be
    compared with the definitions taken from the sources. *)

(** The group a membership names, if it names one. *)
Definition group_of (membership : Membership) : option string :=
  cgm ← contactGroupMembership membership; contactGroupResourceName cgm.

(** The membership lacks the [contactGroupMembership] sub-field or its
    [contactGroupResourceName] (an empty name counts as none). *)
Definition lacks_group (membership : Membership) : Prop :=
  contactGroupMembership membership = None
  \/ group_of membership = None
  \/ group_of membership = Some EmptyString.

(** The membership's group name starts with one of the system prefixes. *)
Definition in_system_group (membership : Membership) : Prop :=
  exists groupResourceName rest,
    group_of membership = Some groupResourceName
    /\ (groupResourceName = "contactGroups/myContacts" +:+ rest
        \/ groupResourceName = "contactGroups/starred" +:+ rest).

(** The group a membership is labelled with, as the specification puts
    it; to be compared with the loop of [getContactLabels]. *)
Definition labelled_group (membership : Membership) : option string :=
  match group_of membership with
  | Some groupResourceName =>
      if nonempty groupResourceName && negb (is_system_group groupResourceName)
      then Some groupResourceName
      else None
  | None => None
  end.

(** Exactly one of the pages, the last one, comes without a continuation
    token. *)
Fixpoint last_page_only (pages : list PageResponse) : Prop :=
  match pages with
  | [] => False
  | r :: rest =>
      match rest with
      | [] => has_token (nextPageToken r) = false
      | _ => has_token (nextPageToken r) = true /\ last_page_only rest
      end
  end.

(** The transcript of a simulated run records, for each request, what
    the API answered to it. *)
Definition faithful (api : nat -> string -> option PageResponse)
    (log : list (string * option PageResponse)) : Prop :=
  forall i url response, log !! i = Some (url, response) -> response = api i url.

(** ** Simulated sessions, contacts, pages and caches *)

Module SimSession.

Definition alice : User :=
  {| id := "1001"; name := "Alice"; email := "alice@example.org";
     picture := "https://example.org/a.png" |}.

Definition signedIn : AuthState :=
  {| user := Some alice;
     tokens := Some {| access_token := "ya29.a0AfH6SMB"; refresh_token := None;
                       id_token := None; expires_at := 3600000 |};
     isAuthenticated := true |}.

(** A signed-in provider over a storage whose removals throw. *)
Definition stuck (mounted : bool) : AuthProvider :=
  {| authState := signedIn; authError := None; mountedRef := mounted;
     navigated := ["/"];
     storage := Sim.stuckStorage (<["user" := "x"]> (<["auth_tokens" := "y"]> ∅)) |}.

(** A provider that nobody has signed in to. *)
Definition fresh (mounted : bool) : AuthProvider :=
  {| authState := unauthenticated; authError := None; mountedRef := mounted;
     navigated := ["/login"]; storage := Sim.emptyStorage |}.

End SimSession.

Module SimContacts.

Definition member (g : string) : Membership :=
  {| contactGroupMembership := Some {| contactGroupResourceName := Some g |} |}.

Definition friends : ContactGroup :=
  {| group_resourceName := "contactGroups/6f2a"; group_updateTime := "2025-06-08T10:00:00Z";
     groupType := "USER_CONTACT_GROUP"; group_name := "Friends"; memberCount := 12 |}.

Definition groups : gmap string ContactGroup :=
  <["contactGroups/6f2a" := friends]> ∅.

Definition person (n : string) (ms : option (list Membership)) : Contact :=
  {| resourceName := n; names := None; photos := None; emailAddresses := None;
     phoneNumbers := None; organizations := None; memberships := ms;
     userDefined := None; _localUpdatedAt := None; _isDirty := None |}.

(** A contact in the two system groups, in a known and an unknown user
    group, with one membership without the sub-field, one without the
    name and one with an empty name. *)
Definition bob : Contact :=
  person "people/c1"
    (Some [member "contactGroups/myContacts";
           member "contactGroups/6f2a";
           {| contactGroupMembership := None |};
           member "contactGroups/starred";
           {| contactGroupMembership := Some {| contactGroupResourceName := None |} |};
           member EmptyString;
           member "contactGroups/77"]).

End SimContacts.

Module SimPages.

Definition carol (n : nat) : Contact :=
  SimContacts.person ("people/c" +:+ pretty n) None.

(** A page of [size] contacts whose resource names count on from
    [first]. *)
Definition page (first size : nat) (next : option string) : PageResponse :=
  {| connections := Some (map carol (seq first size));
     nextPageToken := next; totalItems := None; totalPeople := Some 4500 |}.

Definition three : list PageResponse :=
  [page 0 2000 (Some "tokenA"); page 2000 2000 (Some "tokenB"); page 4000 500 None].

(** An API that never runs out of pages. *)
Definition endless (n : nat) (_ : string) : option PageResponse :=
  Some (page (n * 2000) 2000 (Some ("token" +:+ pretty n))).

Definition plain (s : string) : string := s.

End SimPages.

Module SimCache.

(** The cache as a sync leaves it, with the groups key overwritten by a
    text that is neither a cipher text nor JSON. *)
Definition storedContacts : Value :=
  VArr [VObj [("resourceName", VStr "people/c1")]].


End SimCache.

(** ** src/hooks/useSecureApi.ts *)

(** What [fetch] or [response.json()] may throw, as far as the handler
    of [fetchWithToken] tells it apart. *)
Inductive Thrown : Type :=
| AbortError
| ErrorWith (message : string)
| NotAnError.

Inductive HttpOutcome : Type :=
| FetchThrew (thrown : Thrown)
| Responded (ok : bool) (status : Z) (body : Thrown + Value).

(** The state of the hook: its three pieces of React state and its three
    refs; a controller is named by a number. *)
Record ApiHook : Type := {
  api_isLoading : bool;
  api_error : option string;
  pendingRequests : Z;
  pendingRef : Z;
  abortControllersRef : list nat;
  api_mountedRef : bool
}.

Definition initialApi : ApiHook :=
  {| api_isLoading := false; api_error := None; pendingRequests := 0;
     pendingRef := 0; abortControllersRef := []; api_mountedRef := true |}.

(** [fetchWithToken] up to its first [await]. *)
Definition begin_request (controller : nat) (h : ApiHook) : ApiHook :=
  let pending := pendingRef h + 1 in
  {| api_isLoading := if api_mountedRef h then true else api_isLoading h;
     api_error := if api_mountedRef h then None else api_error h;
     pendingRequests := if api_mountedRef h then pending else pendingRequests h;
     pendingRef := pending;
     abortControllersRef := abortControllersRef h ++ [controller];
     api_mountedRef := api_mountedRef h |}.

(** The [catch] block (when [failure] is the error it builds) and the
    [finally] block of [fetchWithToken]. *)
Definition settle_request (controller : nat) (failure : option string)
    (h : ApiHook) : ApiHook :=
  let pending := Z.max 0 (pendingRef h - 1) in
  {| api_isLoading :=
       if api_mountedRef h && (pending =? 0) then false else api_isLoading h;
     api_error :=
       match failure with
       | Some message => if api_mountedRef h then Some message else api_error h
       | None => api_error h
       end;
     pendingRequests := if api_mountedRef h then pending else pendingRequests h;
     pendingRef := pending;
     abortControllersRef :=
       List.filter (fun c => negb (Nat.eqb c controller)) (abortControllersRef h);
     api_mountedRef := api_mountedRef h |}.

(** The cleanup on unmount: every pending controller is aborted. *)
Definition api_unmount (h : ApiHook) : ApiHook :=
  {| api_isLoading := api_isLoading h; api_error := api_error h;
     pendingRequests := pendingRequests h; pendingRef := pendingRef h;
     abortControllersRef := []; api_mountedRef := false |}.

(** The message of the error that the handler stores. *)
Definition thrown_message (thrown : Thrown) : string :=
  match thrown with
  | AbortError => "Request timed out. Please try again."
  | ErrorWith message => message
  | NotAnError => "An unknown error occurred"
  end.

(** [headers]: the two fixed headers, then the spread of the caller's,
    which may replace them. *)
Fixpoint set_header (k v : string) (headers : list (string * string))
    : list (string * string) :=
  match headers with
  | [] => [(k, v)]
  | (k', v') :: rest =>
      if String.eqb k k' then (k, v) :: rest else (k', v') :: set_header k v rest
  end.

Record ApiOptions : Type := {
  opt_method : option string;
  opt_body : Value;
  opt_headers : list (string * string)
}.

Record Request : Type := {
  req_url : string;
  req_method : string;
  req_headers : list (string * string);
  req_body : option string
}.

Section SecureApi.
Context `{Libs}.
(** [ToString] of a value that is no string, for the message of
    [new Error(v)]. *)
Variable ToString : Value -> string.

Definition build_request (token url : string) (options : ApiOptions) : Request :=
  {| req_url := url;
     req_method := match opt_method options with
                   | Some m => if nonempty m then m else "GET"
                   | None => "GET"
                   end;
     req_headers :=
       fold_left (fun headers kv => set_header kv.1 kv.2 headers)
         (opt_headers options)
         [("Authorization", "Bearer " +:+ token);
          ("Content-Type", "application/json")];
     req_body := if truthy (opt_body options)
                 then Some (JSON_text (opt_body options)) else None |}.

(** The message for a response that is not ok, after the three statuses
    with a fixed message: [errorData.error?.message] when the body parses
    and carries one, the status otherwise. *)
Definition failure_message (status : Z) (body : Thrown + Value) : string :=
  let fallback := "Request failed with status " +:+ show_number status in
  match body with
  | inr errorData =>
      match errorData with
      | VNull | VUndefined => fallback
      | _ =>
          let error := get_field errorData "error" in
          let message :=
            match error with
            | VNull | VUndefined => VUndefined
            | _ => get_field error "message"
            end in
          if truthy message
          then match message with
               | VStr text => text
               | other => ToString other
               end
          else fallback
      end
  | inl _ => fallback
  end.

Record Settled : Type := {
  (** what the promise resolves to; [null] after any failure *)
  api_result : Value;
  (** the message of the error the handler builds *)
  api_failure : option string;
  (** the request handed to [fetch], when it is reached *)
  api_request : option Request;
  (** [logout()] was called *)
  api_logout : bool
}.

(** [fetchWithToken] between its first [await] and its handlers: [token]
    is what [getAccessToken] resolved to, [http] what became of the
    request. *)
Definition transfer (token : option string) (url : string) (options : ApiOptions)
    (http : HttpOutcome) : Settled :=
  if has_token token then
    let request := Some (build_request (default EmptyString token) url options) in
    match http with
    | FetchThrew thrown =>
        {| api_result := VNull; api_failure := Some (thrown_message thrown);
           api_request := request; api_logout := false |}
    | Responded ok status body =>
        if ok then
          match body with
          | inr data =>
              {| api_result := data; api_failure := None;
                 api_request := request; api_logout := false |}
          | inl thrown =>
              {| api_result := VNull; api_failure := Some (thrown_message thrown);
                 api_request := request; api_logout := false |}
          end
        else if status =? 401 then
          {| api_result := VNull;
             api_failure := Some "Session expired. Please log in again.";
             api_request := request; api_logout := true |}
        else if status =? 403 then
          {| api_result := VNull;
             api_failure := Some "You do not have permission to access this resource. Check your Google account permissions.";
             api_request := request; api_logout := false |}
        else if status =? 429 then
          {| api_result := VNull;
             api_failure := Some "Too many requests. Please try again later.";
             api_request := request; api_logout := false |}
        else
          {| api_result := VNull;
             api_failure := Some (failure_message status body);
             api_request := request; api_logout := false |}
    end
  else
    {| api_result := VNull; api_failure := Some "Not authenticated";
       api_request := None; api_logout := false |}.

End SecureApi.

(** The life of the hook as a sequence of events: a request begins, a
    request settles (with the error its handler built, if any). *)
Inductive ApiEvent : Type :=
| Begin (controller : nat)
| Settle (controller : nat) (failure : option string).

Definition api_step (h : ApiHook) (event : ApiEvent) : ApiHook :=
  match event with
  | Begin controller => begin_request controller h
  | Settle controller failure => settle_request controller failure h
  end.

Definition api_run (h : ApiHook) (events : list ApiEvent) : ApiHook :=
  fold_left api_step events h.

(** A sequence of events is well formed from the requests [pending] when
    every controller is new where it begins and pending where it
    settles; the result is the requests pending at the end. *)
Fixpoint well_formed (pending : list nat) (events : list ApiEvent)
    : option (list nat) :=
  match events with
  | [] => Some pending
  | Begin c :: rest =>
      if existsb (Nat.eqb c) pending then None
      else well_formed (pending ++ [c]) rest
  | Settle c _ :: rest =>
      if existsb (Nat.eqb c) pending
      then well_formed (List.filter (fun x => negb (Nat.eqb x c)) pending) rest
      else None
  end.

(** ** More of src/context/AuthContext.tsx *)

(** [Boolean(googleClientId && googleClientId.length > 10)]. *)
Definition hasValidConfig (googleClientId : option string) : bool :=
  match googleClientId with
  | Some clientId => (10 <? String.length clientId)%nat
  | None => false
  end.

(** [toLowerCase] on the letters A to Z (other characters are left as
    they are). *)
Definition lower_char (c : ascii) : ascii :=
  let n := nat_of_ascii c in
  if (65 <=? n)%nat && (n <=? 90)%nat then ascii_of_nat (n + 32) else c.

Fixpoint toLowerCase (s : string) : string :=
  match s with
  | EmptyString => EmptyString
  | String c rest => String (lower_char c) (toLowerCase rest)
  end.

(** [text.includes(part)]. *)
Fixpoint includes (text part : string) : bool :=
  String.prefix part text
  || match text with
     | String _ rest => includes rest part
     | EmptyString => false
     end.

Definition CONFIG_MISSING : string :=
  "Google configuration is missing. Please set up your Google API credentials.".
Definition POPUP_BLOCKED : string :=
  "The login popup was blocked by your browser. Please allow popups for this website and try again.".
Definition INVALID_CLIENT : string :=
  "Invalid OAuth Client ID. Please check your Google API configuration.".
Definition AUTH_FAILED : string :=
  "Authentication failed. Please try logging in again.".
Definition REFRESH_FAILED : string :=
  "Failed to refresh authentication. Please try logging in again.".

(** The provider with the state of its refresh: the [refreshing] state,
    the [refreshingRef] flag, and the number of calls of [googleLogin]
    (each opens the login popup). *)
Record Session : Type := {
  provider : AuthProvider;
  refreshing : bool;
  refreshingRef : bool;
  popups : nat
}.

Definition with_provider (s : Session) (p : AuthProvider) : Session :=
  {| provider := p; refreshing := refreshing s;
     refreshingRef := refreshingRef s; popups := popups s |}.

(** The cast of the stored user, read as a decoder. *)
Definition User_of_Value (v : Value) : option User :=
  match get_field v "id", get_field v "name", get_field v "email",
        get_field v "picture" with
  | VStr i, VStr n, VStr e, VStr p =>
      Some {| id := i; name := n; email := e; picture := p |}
  | _, _, _, _ => None
  end.

Section AuthRefresh.
Context `{Libs}.
(** [hasValidConfig] for the client id of the build. *)
Variable validConfig : bool.

(** [refreshAccessToken]; [popup] is [Some message] when [googleLogin()]
    throws, with the message of what it throws. *)
Definition refreshAccessToken (popup : option string) (s : Session)
    : option string * Session :=
  let p := provider s in
  if negb validConfig then
    (None, with_provider s
             (if mountedRef p then setAuthError p (Some CONFIG_MISSING) else p))
  else if refreshingRef s then (None, s)
  else
    let started :=
      {| provider := p;
         refreshing := if mountedRef p then true else refreshing s;
         refreshingRef := true;
         popups := S (popups s) |} in
    match popup with
    | None => (None, started)
    | Some errorMessage =>
        let blocked :=
          includes (toLowerCase errorMessage) "popup"
          || includes (toLowerCase errorMessage) "blocked" in
        (None,
         {| provider :=
              if mountedRef p
              then setAuthError p
                     (Some (if blocked then POPUP_BLOCKED else REFRESH_FAILED))
              else p;
            refreshing := if mountedRef p then false else refreshing started;
            refreshingRef := false;
            popups := popups started |})
    end.

Definition session_logout (s : Session) : Session :=
  with_provider s (logout (provider s)).

Definition getAccessToken (popup : option string) (now : Z) (s : Session)
    : option string * Session :=
  match getStoredTokens (storage (provider s)) with
  | None => (None, s)
  | Some tokenData =>
      if isTokenExpired (storage (provider s)) now None then
        let (newToken, s1) := refreshAccessToken popup s in
        if has_token newToken then (newToken, s1)
        else (None, if mountedRef (provider s1) then session_logout s1 else s1)
      else (Some (token tokenData), s)
  end.

(** The [onSuccess] callback of [googleLogin]. *)
Definition onSuccess (access_token : option string) (now : Z) (s : Session)
    : Session :=
  let p := provider s in
  if has_token access_token && mountedRef p then
    {| provider := match user (authState p) with
                   | Some u => login p now (default EmptyString access_token) (Some u)
                   | None => p
                   end;
       refreshing := false; refreshingRef := false; popups := popups s |}
  else s.

(** The [onError] callback of [googleLogin]; [errorMessage] is the
    message of the error. *)
Definition onError (errorMessage : string) (s : Session) : Session :=
  let p := provider s in
  if mountedRef p then
    let lowered := toLowerCase errorMessage in
    let message :=
      if includes lowered "popup" || includes lowered "blocked" then POPUP_BLOCKED
      else if includes lowered "invalid_client" then INVALID_CLIENT
      else AUTH_FAILED in
    {| provider := logout (setAuthError p (Some message));
       refreshing := false; refreshingRef := false; popups := popups s |}
  else s.

(** [initAuth], the effect that restores the session on mount; [now] and
    [later] are the clock readings of its two expiry checks.  The result
    is [None] where it is outside the model: when the stored user is a
    truthy value that is no user record, which the session state would
    hold as it is. *)
Definition initAuth (popup : option string) (now later : Z) (s : Session)
    : option Session :=
  let p := provider s in
  if negb validConfig then
    Some (with_provider s (setAuthError p (Some CONFIG_MISSING)))
  else
    let storedUser := secureStorage.getItem (storage p) "user" in
    let storedTokens := getStoredTokens (storage p) in
    match storedTokens with
    | Some tokenData =>
        if truthy storedUser then
          if negb (isTokenExpired (storage p) now (Some tokenData)) then
            match User_of_Value storedUser with
            | Some u =>
                Some (with_provider s
                        (if mountedRef p then
                           setAuthState p
                             {| user := Some u;
                                tokens := Some {| access_token := token tokenData;
                                                  refresh_token := refreshToken tokenData;
                                                  id_token := None;
                                                  expires_at := expiresAt tokenData |};
                                isAuthenticated := true |}
                         else p))
            | None => None
            end
          else if isTokenExpired (storage p) later (Some tokenData) then
            let (newToken, s1) := refreshAccessToken popup s in
            Some (if negb (has_token newToken) && mountedRef (provider s1)
                  then session_logout s1 else s1)
          else Some s
        else Some s
    | None => Some s
    end.

End AuthRefresh.

(** ** More of src/hooks/useContactsStorage.ts *)

(** [contact.emailAddresses && contact.emailAddresses.length > 0]. *)
Definition has_email (contact : Contact) : bool :=
  match emailAddresses contact with
  | Some addresses => (0 <? length addresses)%nat
  | None => false
  end.

(** [getContactsWithEmail]; [cached] is the [contacts] state the callback
    closes over. *)
Definition getContactsWithEmail (cached : list Contact) : list Contact :=
  List.filter has_email cached.

Record OrganizationDetails : Type := {
  details_name : string;
  details_title : string;
  details_department : string
}.

(** [org.metadata?.primary] as a condition. *)
Definition is_primary (org : ContactOrganization) : bool :=
  default false (org_primary org).

(** [{ name: org.name || '', title: org.title || '', department:
    org.department || '' }]. *)
Definition organization_details (org : ContactOrganization) : OrganizationDetails :=
  {| details_name := default EmptyString (org_name org);
     details_title := default EmptyString (org_title org);
     details_department := default EmptyString (org_department org) |}.

Definition getOrganizationDetails (contact : Contact) : option OrganizationDetails :=
  match organizations contact with
  | None | Some [] => None
  | Some (first :: rest) =>
      let primaryOrg := List.find is_primary (first :: rest) in
      Some (organization_details (default first primaryOrg))
  end.

(** ** The preferences of src/utils/secureStorage.ts and
       src/hooks/useUserPreferences.ts *)

Module PREFERENCE_KEYS.
Definition THEME : string := "user_pref_theme".
Definition FILTERS : string := "user_pref_filters".
Definition VIEW_MODE : string := "user_pref_view_mode".
Definition LAST_SYNC : string := "user_pref_last_sync".
End PREFERENCE_KEYS.

(** The own enumerable properties that an object spread [{...v}] copies:
    the fields of an object, the indexed elements of an array, the
    indexed characters of a string, nothing for the other values. *)
Definition own_props (v : Value) : list (string * Value) :=
  match v with
  | VObj fields => fields
  | VArr elements => imap (fun i x => (pretty i, x)) elements
  | VStr s =>
      imap (fun i c => (pretty i, VStr (String c EmptyString)))
           (list_ascii_of_string s)
  | _ => []
  end.

(** A property [k: v] written after a spread: it takes the place of the
    property of that name, or comes last.  (Where JavaScript would move
    an integer-like name to the front is not modelled; the order shows
    in the JSON text only.) *)
Fixpoint set_prop (k : string) (v : Value) (fields : list (string * Value))
    : list (string * Value) :=
  match fields with
  | [] => [(k, v)]
  | (k', v') :: rest =>
      if String.eqb k k' then (k, v) :: rest else (k', v') :: set_prop k v rest
  end.

(** The names every plain object inherits from [Object.prototype]. *)
Definition Object_prototype_names : list string :=
  ["constructor"; "__proto__"; "hasOwnProperty"; "isPrototypeOf";
   "propertyIsEnumerable"; "toLocaleString"; "toString"; "valueOf";
   "__defineGetter__"; "__defineSetter__"; "__lookupGetter__";
   "__lookupSetter__"].

Definition inherited (k : string) : bool :=
  existsb (String.eqb k) Object_prototype_names.

(** [x || y] on values. *)
Definition or_else (x y : Value) : Value := if truthy x then x else y.

Inductive ThemePreference : Type := light | dark | system.

Definition theme_text (theme : ThemePreference) : string :=
  match theme with
  | light => "light"
  | dark => "dark"
  | system => "system"
  end.

Inductive ViewMode : Type := list_view | grid_view | compact_view.

Definition viewMode_text (mode : ViewMode) : string :=
  match mode with
  | list_view => "list"
  | grid_view => "grid"
  | compact_view => "compact"
  end.

(** [secureStorage.preferences].  [secureStorage.setItem] and
    [secureStorage.getItem] never throw, so the handlers with the direct
    storage never run. *)
Module preferences.
Section with_libs.
Context `{Libs}.

(** [isoNow] is [new Date().toISOString()]. *)
Definition saveFilters (st : Storage) (filters : Value) (isoNow : string) : Storage :=
  secureStorage.setItem st PREFERENCE_KEYS.FILTERS
    (VObj (set_prop "lastUpdated" (VStr isoNow) (own_props filters))).

Definition getFilters (st : Storage) : Value :=
  or_else (secureStorage.getItem st PREFERENCE_KEYS.FILTERS) VNull.

Definition saveTheme (st : Storage) (theme : ThemePreference) : Storage :=
  secureStorage.setItem st PREFERENCE_KEYS.THEME (VStr (theme_text theme)).

Definition getTheme (st : Storage) : Value :=
  or_else (secureStorage.getItem st PREFERENCE_KEYS.THEME) (VStr "system").

Definition saveViewMode (st : Storage) (mode : string) : Storage :=
  secureStorage.setItem st PREFERENCE_KEYS.VIEW_MODE (VStr mode).

Definition getViewMode (st : Storage) : Value :=
  or_else (secureStorage.getItem st PREFERENCE_KEYS.VIEW_MODE) (VStr "list").

Definition saveLastSync (st : Storage) (dataType : string) (timestamp : Z) : Storage :=
  let currentSyncs :=
    or_else (secureStorage.getItem st PREFERENCE_KEYS.LAST_SYNC) (VObj []) in
  secureStorage.setItem st PREFERENCE_KEYS.LAST_SYNC
    (VObj (set_prop dataType (VNum timestamp) (own_props currentSyncs))).

(** [syncs[dataType] || null].  The result is [None] where it is outside
    [Value]: when the stored value is truthy but no plain object, and
    when [dataType] is not an own property and names a property that
    objects inherit (a function). *)
Definition getLastSync (st : Storage) (dataType : string) : option Value :=
  let syncs :=
    or_else (secureStorage.getItem st PREFERENCE_KEYS.LAST_SYNC) (VObj []) in
  match syncs with
  | VObj fields =>
      match assoc dataType fields with
      | Some x => Some (or_else x VNull)
      | None => if inherited dataType then None else Some VNull
      end
  | _ => None
  end.

End with_libs.
End preferences.

(** The state of [useUserPreferences]. *)
Record UserPreferences : Type := {
  pref_theme : Value;
  pref_viewMode : Value;
  pref_filters : Value
}.

Record PreferencesHook : Type := {
  prefs : UserPreferences;
  loaded : bool
}.

Definition initialPreferences : PreferencesHook :=
  {| prefs := {| pref_theme := VStr "system"; pref_viewMode := VStr "list";
                 pref_filters := VObj [] |};
     loaded := false |}.

Section UserPreferencesHook.
Context `{Libs}.

(** The effect that runs on mount; nothing in its [try] block throws. *)
Definition loadPreferences (st : Storage) (h : PreferencesHook) : PreferencesHook :=
  {| prefs := {| pref_theme := preferences.getTheme st;
                 pref_viewMode := preferences.getViewMode st;
                 pref_filters := or_else (preferences.getFilters st) (VObj []) |};
     loaded := true |}.

Definition setTheme (st : Storage) (h : PreferencesHook) (theme : ThemePreference)
    : Storage * PreferencesHook :=
  (preferences.saveTheme st theme,
   {| prefs := {| pref_theme := VStr (theme_text theme);
                  pref_viewMode := pref_viewMode (prefs h);
                  pref_filters := pref_filters (prefs h) |};
      loaded := loaded h |}).

Definition setViewMode (st : Storage) (h : PreferencesHook) (mode : ViewMode)
    : Storage * PreferencesHook :=
  (preferences.saveViewMode st (viewMode_text mode),
   {| prefs := {| pref_theme := pref_theme (prefs h);
                  pref_viewMode := VStr (viewMode_text mode);
                  pref_filters := pref_filters (prefs h) |};
      loaded := loaded h |}).

(** [saveFilters] of the hook stamps the filters with [lastUsed], and
    [secureStorage.preferences.saveFilters] adds [lastUpdated]; [usedAt]
    and [updatedAt] are what the two calls of [new Date().toISOString()]
    give. *)
Definition hook_saveFilters (st : Storage) (h : PreferencesHook) (filters : Value)
    (usedAt updatedAt : string) : Storage * PreferencesHook :=
  let filtersWithTimestamp :=
    VObj (set_prop "lastUsed" (VStr usedAt) (own_props filters)) in
  (preferences.saveFilters st filtersWithTimestamp updatedAt,
   {| prefs := {| pref_theme := pref_theme (prefs h);
                  pref_viewMode := pref_viewMode (prefs h);
                  pref_filters := filtersWithTimestamp |};
      loaded := loaded h |}).

Definition clearFilters (st : Storage) (h : PreferencesHook) (isoNow : string)
    : Storage * PreferencesHook :=
  (preferences.saveFilters st (VObj []) isoNow,
   {| prefs := {| pref_theme := pref_theme (prefs h);
                  pref_viewMode := pref_viewMode (prefs h);
                  pref_filters := VObj [] |};
      loaded := loaded h |}).

End UserPreferencesHook.

(** The properties that JSON keeps of an object: [json_clean] on the
    fields. *)
Fixpoint clean_props (fields : list (string * Value)) : list (string * Value) :=
  match fields with
  | [] => []
  | (_, VUndefined) :: rest => clean_props rest
  | (k, x) :: rest => (k, json_clean x) :: clean_props rest
  end.

(** ** Further simulated storages *)

Module SimStores.

(** A [localStorage] holding [m] that is full: every [setItem] throws the
    quota error. *)
Definition full (m : gmap string string) : Storage :=
  {| items := m; getItem_throws := None;
     setItem_throws := fun _ _ => Some (DOMException "QuotaExceededError");
     removeItem_throws := fun _ => None |}.

(** A [localStorage] holding [m] in which only the removal of [stuck]
    throws. *)
Definition sticky (stuck : string) (m : gmap string string) : Storage :=
  {| items := m; getItem_throws := None;
     setItem_throws := fun _ _ => None;
     removeItem_throws := fun key =>
       if String.eqb key stuck then Some (DOMException "SecurityError") else None |}.

(** A [localStorage] holding [m] that cannot be read. *)
Definition unreadable (m : gmap string string) : Storage :=
  {| items := m; getItem_throws := Some (DOMException "SecurityError");
     setItem_throws := fun _ _ => None;
     removeItem_throws := fun _ => None |}.

(** A cache of contacts, groups and a theme, as plain texts. *)
Definition cache : gmap string string :=
  <["google_contacts" := "c"]> (<["google_contact_groups" := "g"]>
    (<["google_contacts_metadata" := "m"]> (<["user_pref_theme" := "t"]> ∅))).

End SimStores.

(** ** Further simulated data *)

Module SimOrgs.

Definition acme : ContactOrganization :=
  {| org_name := Some "Acme"; org_title := None; org_department := None;
     org_primary := None |}.

Definition globex : ContactOrganization :=
  {| org_name := Some "Globex"; org_title := Some "CTO"; org_department := None;
     org_primary := Some true |}.

Definition dave : Contact :=
  {| resourceName := "people/c9"; names := None; photos := None;
     emailAddresses := None; phoneNumbers := None;
     organizations := Some [acme; globex]; memberships := None;
     userDefined := None; _localUpdatedAt := None; _isDirty := None |}.

End SimOrgs.

Module SimRefresh.

(** The storage that a sign-in of [SimSession.alice] at time 1000 leaves
    behind; the token has no [exp] claim, so it expires at 3601000. *)
Definition signedInStorage : Storage :=
  storage (@login Sim.libs (SimSession.fresh true) 1000 "ya29.a0AfH6SMB"
             (Some SimSession.alice)).

(** The provider over that storage after the page was loaded again. *)
Definition reloaded : Session :=
  {| provider := {| authState := unauthenticated; authError := None;
                    mountedRef := true; navigated := [];
                    storage := signedInStorage |};
     refreshing := false; refreshingRef := false; popups := 0 |}.

End SimRefresh.

(** What the hook keeps true of its state while it is mounted. *)
Definition api_consistent (h : ApiHook) (pending : list nat) : Prop :=
  api_mountedRef h = true
  /\ List.NoDup pending
  /\ abortControllersRef h = pending
  /\ pendingRef h = Z.of_nat (length pending)
  /\ pendingRequests h = pendingRef h
  /\ api_isLoading h = (0 <? pendingRef h).

(** * Properties *)

(** ** Basic facts *)

Lemma nonempty_true (s : string) : nonempty s = true <-> s <> EmptyString.
Proof. destruct s; simpl; split; congruence. Qed.

Lemma nonempty_false (s : string) : nonempty s = false <-> s = EmptyString.
Proof. destruct s; simpl; split; congruence. Qed.

Lemma prefix_app (p s : string) :
  String.prefix p s = true <-> exists rest, s = p +:+ rest.
Proof.
  revert s; induction p as [|c p IH]; intros s; simpl.
  - split; [intros _; exists s; reflexivity | intros _; now destruct s].
  - destruct s as [|d s]; simpl.
    + split; [discriminate | intros [rest Hrest]; discriminate].
    + destruct (Ascii.ascii_dec c d) as [->|Hne].
      * rewrite IH. split; intros [rest Hrest]; exists rest.
        -- simpl. now rewrite Hrest.
        -- simpl in Hrest. now inversion Hrest.
      * split; [discriminate|].
        intros [rest Hrest]. simpl in Hrest. inversion Hrest. congruence.
Qed.

(** ** Storage facts *)

Lemma localStorage_removeItem_policy (st st' : Storage) (key : string) :
  localStorage.removeItem st key = Ret st' ->
  getItem_throws st' = getItem_throws st
  /\ setItem_throws st' = setItem_throws st
  /\ removeItem_throws st' = removeItem_throws st
  /\ items st' = delete key (items st).
Proof.
  unfold localStorage.removeItem.
  destruct (removeItem_throws st key); [discriminate|].
  intros [= <-]. simpl. repeat split.
Qed.

Section RemovalFacts.
Context `{Libs}.

Lemma secureStorage_removeItem_policy (st : Storage) (key : string) :
  getItem_throws (secureStorage.removeItem st key) = getItem_throws st
  /\ setItem_throws (secureStorage.removeItem st key) = setItem_throws st
  /\ removeItem_throws (secureStorage.removeItem st key) = removeItem_throws st.
Proof.
  unfold secureStorage.removeItem.
  destruct (localStorage.removeItem st key) as [e|st'] eqn:Hrm; [repeat split|].
  apply localStorage_removeItem_policy in Hrm. tauto.
Qed.

Lemma secureStorage_removeItem_items (st : Storage) (key : string) :
  removeItem_throws st key = None ->
  items (secureStorage.removeItem st key) = delete key (items st).
Proof.
  intros Hrm. unfold secureStorage.removeItem, localStorage.removeItem.
  rewrite Hrm. reflexivity.
Qed.

Lemma removeItem_other (st : Storage) (key k : string) :
  k <> key -> items (secureStorage.removeItem st key) !! k = items st !! k.
Proof.
  intros Hne. unfold secureStorage.removeItem, localStorage.removeItem.
  destruct (removeItem_throws st key); [reflexivity|].
  simpl. now apply lookup_delete_ne.
Qed.

Lemma removeItem_gone (st : Storage) (key : string) :
  removeItem_throws st key = None ->
  items (secureStorage.removeItem st key) !! key = None.
Proof.
  intros Hrm. rewrite secureStorage_removeItem_items by exact Hrm.
  apply lookup_delete_eq.
Qed.

Lemma removeItem_stuck (st : Storage) (key : string) (e : Exn) :
  removeItem_throws st key = Some e -> secureStorage.removeItem st key = st.
Proof.
  intros Hrm. unfold secureStorage.removeItem, localStorage.removeItem.
  now rewrite Hrm.
Qed.

(** The bulk clear is three guarded removals in a row. *)
Lemma clearContactsData_unfold (st : Storage) :
  secureStorage.clearContactsData st
  = secureStorage.removeItem
      (secureStorage.removeItem
         (secureStorage.removeItem st "google_contacts")
         "google_contact_groups")
      "google_contacts_metadata".
Proof. reflexivity. Qed.

Lemma clearContactsData_policy (st : Storage) :
  getItem_throws (secureStorage.clearContactsData st) = getItem_throws st
  /\ setItem_throws (secureStorage.clearContactsData st) = setItem_throws st
  /\ removeItem_throws (secureStorage.clearContactsData st) = removeItem_throws st.
Proof.
  rewrite clearContactsData_unfold.
  destruct (secureStorage_removeItem_policy st "google_contacts") as (G1 & S1 & R1).
  destruct (secureStorage_removeItem_policy
              (secureStorage.removeItem st "google_contacts")
              "google_contact_groups") as (G2 & S2 & R2).
  destruct (secureStorage_removeItem_policy
              (secureStorage.removeItem
                 (secureStorage.removeItem st "google_contacts")
                 "google_contact_groups")
              "google_contacts_metadata") as (G3 & S3 & R3).
  repeat split; congruence.
Qed.

Lemma clearContactsData_other (st : Storage) (k : string) :
  ~ In k contactKeys ->
  items (secureStorage.clearContactsData st) !! k = items st !! k.
Proof.
  intros Hk. rewrite clearContactsData_unfold. simpl in Hk.
  rewrite !removeItem_other by (intros ->; apply Hk; auto). reflexivity.
Qed.

Lemma clearContactsData_gone (st : Storage) (k : string) :
  In k contactKeys -> removeItem_throws st k = None ->
  items (secureStorage.clearContactsData st) !! k = None.
Proof.
  intros Hk Hrm. rewrite clearContactsData_unfold.
  destruct (secureStorage_removeItem_policy st "google_contacts") as (_ & _ & R1).
  destruct (secureStorage_removeItem_policy
              (secureStorage.removeItem st "google_contacts")
              "google_contact_groups") as (_ & _ & R2).
  destruct Hk as [<-|[<-|[<-|[]]]].
  - rewrite !removeItem_other by discriminate. now apply removeItem_gone.
  - rewrite removeItem_other by discriminate. apply removeItem_gone. congruence.
  - apply removeItem_gone. congruence.
Qed.

Lemma clearContactsData_kept (st : Storage) (k : string) (e : Exn) :
  removeItem_throws st k = Some e ->
  items (secureStorage.clearContactsData st) !! k = items st !! k.
Proof.
  intros Hrm. rewrite clearContactsData_unfold.
  destruct (secureStorage_removeItem_policy st "google_contacts") as (_ & _ & R1).
  destruct (secureStorage_removeItem_policy
              (secureStorage.removeItem st "google_contacts")
              "google_contact_groups") as (_ & _ & R2).
  assert (Hstep : forall st' key, removeItem_throws st' = removeItem_throws st ->
            items (secureStorage.removeItem st' key) !! k = items st' !! k).
  { intros st' key Hpol. destruct (decide (k = key)) as [->|Hne].
    - rewrite (removeItem_stuck st' key e); [reflexivity | congruence].
    - now apply removeItem_other. }
  rewrite Hstep by congruence. rewrite Hstep by congruence. now rewrite Hstep.
Qed.

End RemovalFacts.

(** ** Token lifecycle *)

Section TokenProperties.
Context `{Libs}.

(** Without a decoded [exp] claim the expiry is the call time plus one
    hour. *)
Lemma getTokenExpiration_fallback (now : Z) (tok : string) :
  (forall decoded, jwtDecode tok = Some decoded -> exp decoded = None) ->
  getTokenExpiration now tok = now + 3600 * 1000.
Proof.
  intros Hexp. unfold getTokenExpiration.
  destruct (jwtDecode tok) as [decoded|] eqn:Hdec; [|reflexivity].
  now rewrite (Hexp decoded eq_refl).
Qed.

(** With a non-zero [exp] claim the expiry is the claim in milliseconds. *)
Lemma getTokenExpiration_claim (now : Z) (tok : string) (decoded : DecodedToken) (e : Z) :
  jwtDecode tok = Some decoded -> exp decoded = Some e -> e <> 0 ->
  getTokenExpiration now tok = e * 1000.
Proof.
  intros Hdec Hexp He. unfold getTokenExpiration. rewrite Hdec, Hexp.
  destruct (Z.eqb_spec e 0); [contradiction | reflexivity].
Qed.

(** C9. For every token that does not decode as a JWT bearing an [exp]
    claim (the decoder throws, or the decoded claims have no [exp]),
    [getTokenExpiration] called at time [now] returns a value in the
    interval from [now] to [now] plus one hour. *)
Theorem getTokenExpiration_default_window (now : Z) (tok : string) :
  (forall decoded, jwtDecode tok = Some decoded -> exp decoded = None) ->
  now <= getTokenExpiration now tok <= now + 3600 * 1000.
Proof.
  intros Hexp. rewrite (getTokenExpiration_fallback now tok Hexp). lia.
Qed.

(** C3 (amended). For a bundle passed to [isTokenExpired], the result is
    true exactly when the bundle's token is empty or [now] plus five
    minutes is at or past the stored expiry; so for a bundle with a
    non-empty token it is the lookahead test alone. *)
Theorem isTokenExpired_lookahead (st : Storage) (now : Z) (td : TokenData) :
  isTokenExpired st now (Some td) = true
  <-> token td = EmptyString \/ expiresAt td <= now + 5 * 60 * 1000.
Proof.
  unfold isTokenExpired.
  destruct (nonempty (token td)) eqn:Htok; simpl.
  - apply nonempty_true in Htok.
    rewrite Z.geb_le. split; [now right | intros [?|?]; [contradiction | assumption]].
  - apply nonempty_false in Htok. split; [now left | reflexivity].
Qed.

End TokenProperties.

(** C9, on the simulated decoder: an opaque access token, at time 1000. *)
Lemma getTokenExpiration_default_window_witness :
  1000 <= @getTokenExpiration Sim.libs 1000 "ya29.a0AfH6SMB" <= 1000 + 3600 * 1000.
Proof.
  apply (@getTokenExpiration_default_window Sim.libs 1000 "ya29.a0AfH6SMB").
  intros decoded Hdec. vm_compute in Hdec. discriminate.
Defined.

(** C3 as stated fails: a bundle with an empty token and an expiry one
    hour ahead is reported expired, though [now] plus five minutes is
    before the expiry. *)
Lemma isTokenExpired_empty_token_counterexample :
  let td := {| token := EmptyString; refreshToken := None; expiresAt := 3600000 |} in
  @isTokenExpired Sim.libs Sim.emptyStorage 0 (Some td) = true
  /\ (0 + 5 * 60 * 1000 >=? expiresAt td) = false.
Proof. split; reflexivity. Qed.

(** A token with an [exp] claim gets the claim, in milliseconds. *)
Example getTokenExpiration_jwt :
  @getTokenExpiration Sim.libs 1000 (Sim.jwt 1700000000) = 1700000000000.
Proof. reflexivity. Qed.

(** ** Session context *)

Section AuthProperties.
Context `{Libs}.

(** C4 (amended). While the provider is mounted, [logout] sets the
    session state to unauthenticated (no user, no tokens, not
    authenticated) and navigates to the login route, whatever the storage
    does, also when its removals throw. *)
Theorem logout_unauthenticates (p : AuthProvider) :
  mountedRef p = true ->
  authState (logout p) = unauthenticated
  /\ navigated (logout p) = "/login" :: navigated p.
Proof.
  intros Hm. unfold logout. simpl. rewrite Hm. simpl. split; reflexivity.
Qed.

(** Once unmounted, [logout] leaves the session state as it was. *)
Lemma logout_unmounted (p : AuthProvider) :
  mountedRef p = false -> authState (logout p) = authState p.
Proof. intros Hm. unfold logout. simpl. rewrite Hm. reflexivity. Qed.

(** [logout] removes what it can: on a storage whose removals work, both
    keys are gone. *)
Lemma logout_clears_storage (p : AuthProvider) :
  (forall key, removeItem_throws (storage p) key = None) ->
  items (storage (logout p)) !! "user" = None
  /\ items (storage (logout p)) !! "auth_tokens" = None.
Proof.
  intros Hrm. unfold logout, clearTokens. simpl.
  destruct (mountedRef p); simpl.
  all: destruct (secureStorage_removeItem_policy (storage p) "user") as (_ & _ & Hpol).
  all: rewrite secureStorage_removeItem_items by (rewrite Hpol; apply Hrm).
  all: rewrite secureStorage_removeItem_items by apply Hrm.
  all: split; [rewrite lookup_delete_ne by discriminate|]; apply lookup_delete_eq.
Qed.

(** C5 (amended). For every user record, [login] with an empty access
    token leaves the session state, the storage and the route as they
    were (so it never turns the state to authenticated), and, while the
    provider is mounted, sets the error message. *)
Theorem login_empty_token (p : AuthProvider) (now : Z) (userData : option User) :
  mountedRef p = true ->
  let p' := login p now EmptyString userData in
  authState p' = authState p
  /\ storage p' = storage p
  /\ navigated p' = navigated p
  /\ authError p' = Some "Authentication failed: Missing access token".
Proof.
  intros Hm. unfold login. simpl. rewrite Hm. simpl. repeat split.
Qed.

(** Once unmounted, [login] with an empty token changes nothing at all. *)
Lemma login_empty_token_unmounted (p : AuthProvider) (now : Z) (userData : option User) :
  mountedRef p = false -> login p now EmptyString userData = p.
Proof. intros Hm. unfold login. simpl. rewrite Hm. reflexivity. Qed.

End AuthProperties.


(** C4, with both removals throwing: the mounted provider is signed out. *)
Lemma logout_unauthenticates_witness :
  authState (logout (SimSession.stuck true)) = unauthenticated
  /\ navigated (logout (SimSession.stuck true)) = ["/login"; "/"].
Proof.
  apply (logout_unauthenticates (SimSession.stuck true)). reflexivity.
Defined.

(** There the removals threw and both keys are still in the storage. *)
Example logout_stuck_storage :
  items (storage (logout (SimSession.stuck true))) !! "user" = Some "x"
  /\ items (storage (logout (SimSession.stuck true))) !! "auth_tokens" = Some "y".
Proof. split; reflexivity. Qed.

(** C4 as stated fails: after the provider has been unmounted, [logout]
    leaves the session authenticated. *)
Lemma logout_unmounted_counterexample :
  let p := logout (SimSession.stuck false) in
  isAuthenticated (authState p) = true /\ authState p <> unauthenticated.
Proof. split; [reflexivity | discriminate]. Qed.

(** C5, on a mounted provider. *)
Lemma login_empty_token_witness :
  let p' := @login Sim.libs (SimSession.fresh true) 1000 EmptyString
              (Some SimSession.alice) in
  authState p' = unauthenticated
  /\ storage p' = Sim.emptyStorage
  /\ navigated p' = ["/login"]
  /\ authError p' = Some "Authentication failed: Missing access token".
Proof.
  apply (@login_empty_token Sim.libs (SimSession.fresh true) 1000
           (Some SimSession.alice)).
  reflexivity.
Defined.

(** C5 as stated fails: after the provider has been unmounted, [login]
    with an empty token leaves no error message. *)
Lemma login_empty_token_unmounted_counterexample :
  authError (@login Sim.libs (SimSession.fresh false) 1000 EmptyString
               (Some SimSession.alice)) = None.
Proof. reflexivity. Qed.

(** ** Contact labels *)

Lemma is_system_group_spec (g : string) :
  is_system_group g = true
  <-> exists rest, g = "contactGroups/myContacts" +:+ rest
                   \/ g = "contactGroups/starred" +:+ rest.
Proof.
  unfold is_system_group, SYSTEM_GROUP_PREFIXES.
  cbv [existsb]. rewrite !orb_true_iff, !prefix_app.
  split.
  - intros [[rest ->]|[[rest ->]|Hf]]; [exists rest; now left | exists rest; now right | discriminate].
  - intros [rest [->| ->]]; [left | right; left]; now exists rest.
Qed.

Lemma length_omap_filter {A B : Type} (f : A -> option B) (l : list A) :
  length (omap f l) = length (filter (fun x => is_Some (f x)) l).
Proof.
  induction l as [|x l IH]; [reflexivity|].
  rewrite filter_cons.
  destruct (decide (is_Some (f x))) as [[b Hb]|Hn]; simpl.
  - rewrite Hb. simpl. f_equal. exact IH.
  - destruct (f x) as [b|]; [exfalso; apply Hn; eauto | exact IH].
Qed.

Lemma label_step_labelled (groups : gmap string ContactGroup)
    (labels : list ContactLabel) (membership : Membership) :
  label_step groups labels membership
  = labels ++ match labelled_group membership with
              | Some g => [group_label groups g]
              | None => []
              end.
Proof.
  unfold label_step, labelled_group, group_of.
  destruct (contactGroupMembership membership) as [cgm|]; simpl;
    [|now rewrite app_nil_r].
  destruct (contactGroupResourceName cgm) as [g|]; simpl;
    [|now rewrite app_nil_r].
  destruct (nonempty g); simpl; [|now rewrite app_nil_r].
  destruct (is_system_group g); simpl; [now rewrite app_nil_r | reflexivity].
Qed.

Lemma label_loop (groups : gmap string ContactGroup) (ms : list Membership) :
  forall labels,
    fold_left (label_step groups) ms labels
    = labels ++ map (group_label groups) (omap labelled_group ms).
Proof.
  induction ms as [|m ms IH]; intros labels; simpl.
  - now rewrite app_nil_r.
  - rewrite IH, label_step_labelled.
    destruct (labelled_group m); simpl.
    + now rewrite <- app_assoc.
    + now rewrite app_nil_r.
Qed.

(** C8. For every contact, [getContactLabels] returns one label per
    group membership, in order, leaving out exactly the memberships that
    lack the [contactGroupMembership] sub-field or its
    [contactGroupResourceName] and the memberships whose group name
    starts with [contactGroups/myContacts] or [contactGroups/starred]. *)
Theorem getContactLabels_excludes (groups : gmap string ContactGroup)
    (contact : Contact) :
  let ms := default [] (memberships contact) in
  getContactLabels groups contact
  = map (group_label groups) (omap labelled_group ms)
  /\ (forall m, labelled_group m = None <-> lacks_group m \/ in_system_group m)
  /\ length (getContactLabels groups contact)
     = length (filter (fun m => is_Some (labelled_group m)) ms).
Proof.
  assert (Hlabels : getContactLabels groups contact
                    = map (group_label groups)
                        (omap labelled_group (default [] (memberships contact)))).
  { unfold getContactLabels.
    destruct (memberships contact) as [ms|]; simpl; [|reflexivity].
    now rewrite label_loop. }
  split; [exact Hlabels|]. split.
  - intros m. unfold labelled_group, lacks_group, in_system_group.
    destruct (group_of m) as [g|] eqn:Hg.
    + destruct (nonempty g) eqn:Hne; simpl.
      * apply nonempty_true in Hne.
        destruct (is_system_group g) eqn:Hsys; simpl.
        -- apply is_system_group_spec in Hsys as [rest Hrest].
           split; [intros _; right; exists g, rest; auto | reflexivity].
        -- split; [discriminate|].
           intros [[Hm|[Hn|He]]|(g' & rest & Hg' & Hrest)].
           ++ unfold group_of in Hg. rewrite Hm in Hg. discriminate.
           ++ discriminate.
           ++ congruence.
           ++ injection Hg' as <-.
              assert (is_system_group g = true) by (apply is_system_group_spec; eauto).
              congruence.
      * apply nonempty_false in Hne. subst g.
        split; [intros _; left; right; right; reflexivity | reflexivity].
    + split; [intros _; left; right; left; reflexivity | reflexivity].
  - rewrite Hlabels, length_map. apply length_omap_filter.
Qed.


Example getContactLabels_bob :
  getContactLabels SimContacts.groups SimContacts.bob
  = [ {| label_name := "Friends"; label_type := Some "group" |};
      {| label_name := "Group 77"; label_type := Some "group" |} ].
Proof. reflexivity. Qed.

(** ** Pagination *)

Section PaginationProperties.
Context {World : Type} `{Runtime World}.

Lemma fetch_pages_S (fuel' : nat) (w : World) (allContacts : list Contact)
    (pageToken : option string) (pageCount : nat) (totalEstimated : Z)
    (progress : option (Z * Z)) :
  fetch_pages (S fuel') w allContacts pageToken pageCount totalEstimated progress
  = if negb (isMounted w) then
      {| result := Returned allContacts; world := w; syncProgress := progress |}
    else
      let (response, w) := fetchWithToken (pageUrl pageToken) w in
      match response with
      | None =>
          {| result := Rejected (Error "Failed to fetch contacts page");
             world := w;
             syncProgress := if isMounted w then None else progress |}
      | Some response =>
          let '(allContacts, totalEstimated, progress) :=
            take_page w response allContacts totalEstimated progress in
          if (maxPages <=? S pageCount)%nat then
            fetch_done w allContacts progress
          else
            let w := if has_token (nextPageToken response) && isMounted w
                     then sleep 100 w else w in
            if has_token (nextPageToken response) && isMounted w then
              fetch_pages fuel' w allContacts (nextPageToken response)
                          (S pageCount) totalEstimated progress
            else fetch_done w allContacts progress
      end.
Proof. reflexivity. Qed.

Lemma take_page_contacts (w : World) (r : PageResponse) (allContacts : list Contact)
    (totalEstimated : Z) (progress : option (Z * Z)) :
  (take_page w r allContacts totalEstimated progress).1.1
  = allContacts ++ contacts_of (Some r).
Proof.
  unfold take_page, contacts_of.
  destruct (connections r); simpl; [reflexivity | now rewrite app_nil_r].
Qed.

(** The loop leaves through its page cap before the fuel is used up. *)
Lemma fetch_pages_enough_fuel (fuel : nat) :
  forall w allContacts pageToken pageCount totalEstimated progress,
    (0 < fuel)%nat -> (maxPages <= pageCount + fuel)%nat ->
    result (fetch_pages fuel w allContacts pageToken pageCount totalEstimated
              progress) <> OutOfFuel.
Proof.
  induction fuel as [|fuel IH]; intros w all tok pc te prog Hpos Hcap; [lia|].
  rewrite fetch_pages_S.
  destruct (negb (isMounted w)); [discriminate|].
  destruct (fetchWithToken (pageUrl tok) w) as [[r|] w1]; [|discriminate].
  destruct (take_page w1 r all te prog) as [[all1 te1] prog1].
  destruct (Nat.leb_spec maxPages (S pc)); [discriminate|].
  cbv zeta.
  destruct (has_token (nextPageToken r) && isMounted _); [|discriminate].
  apply IH; lia.
Qed.

(** [fetchAllContacts] always comes back, with the contacts or with the
    error of a failed page: the fuel of the model is never the reason to
    stop. *)
Theorem fetchAllContacts_returns (w : World) (progress : option (Z * Z)) :
  result (fetchAllContacts w progress) <> OutOfFuel.
Proof. apply fetch_pages_enough_fuel; unfold maxPages; lia. Qed.

End PaginationProperties.

Lemma faithful_snoc (api : nat -> string -> option PageResponse)
    (log : list (string * option PageResponse)) (url : string) :
  faithful api log -> faithful api (log ++ [(url, api (length log) url)]).
Proof.
  intros Hlog i url' response Hi.
  destruct (decide (i < length log)%nat) as [Hlt|Hge].
  - rewrite lookup_app_l in Hi by exact Hlt. now apply Hlog.
  - rewrite lookup_app_r in Hi by lia.
    destruct (i - length log)%nat as [|k] eqn:Hk; simpl in Hi; [|discriminate].
    injection Hi as <- <-. f_equal. lia.
Qed.

Section SimulatedRuns.
Variable api : nat -> string -> option PageResponse.
Variable encode : string -> string.

#[local] Instance sim : Runtime SimWorld := simRuntime api encode.

Lemma sim_isMounted (w : SimWorld) : unmountAfter w = None -> isMounted w = true.
Proof. intros Hu. simpl. now rewrite Hu. Qed.

(** Serving a finite list of pages: the loop asks for each page once, in
    order, each request after the first with the token of the response
    before, and returns the pages' contacts. *)
Lemma sim_paged_run (pages : list PageResponse) :
  forall fuel w allContacts pageToken pageCount totalEstimated progress,
    unmountAfter w = None ->
    (forall i url, api (length (transcript w) + i) url = pages !! i) ->
    last_page_only pages ->
    (length pages <= fuel)%nat ->
    (pageCount + length pages <= maxPages)%nat ->
    let out := fetch_pages fuel w allContacts pageToken pageCount
                 totalEstimated progress in
    result out = Returned (allContacts ++ flat_map (fun r => contacts_of (Some r)) pages)
    /\ transcript (world out) = transcript w ++ serve pageToken pages.
Proof.
  induction pages as [|r rest IH];
    intros fuel w all tok pc te prog Hu Hapi Hlast Hfuel Hcap out; [contradiction|].
  subst out. destruct fuel as [|fuel]; [simpl in Hfuel; lia|].
  rewrite fetch_pages_S, (sim_isMounted w Hu). cbn [negb].
  change (fetchWithToken (pageUrl tok) w)
    with (api (length (transcript w)) (pageUrl tok),
          {| transcript := transcript w ++ [(pageUrl tok, api (length (transcript w)) (pageUrl tok))];
             unmountAfter := unmountAfter w |}).
  pose proof (Hapi 0%nat (pageUrl tok)) as H0. rewrite Nat.add_0_r in H0.
  rewrite H0. cbn [lookup list_lookup].
  set (w1 := {| transcript := _; unmountAfter := _ |}).
  assert (Hu1 : unmountAfter w1 = None) by exact Hu.
  pose proof (take_page_contacts w1 r all te prog) as Hall.
  destruct (take_page w1 r all te prog) as [[all1 te1] prog1]. simpl in Hall. subst all1.
  destruct rest as [|r2 rest].
  - (* the last page *)
    simpl in Hlast. rewrite Hlast. cbn [andb].
    assert (Hdone : forall b : bool,
               (if b then fetch_done w1 (all ++ contacts_of (Some r)) prog1
                else fetch_done w1 (all ++ contacts_of (Some r)) prog1)
               = fetch_done w1 (all ++ contacts_of (Some r)) prog1)
      by (intros []; reflexivity).
    rewrite Hdone. simpl. rewrite app_nil_r. split; reflexivity.
  - (* a page with a token *)
    destruct Hlast as [Htok Hlast]. rewrite Htok, (sim_isMounted w1 Hu1). cbn [andb].
    simpl in Hcap, Hfuel.
    destruct (Nat.leb_spec maxPages (S pc)) as [Hle|Hlt]; [lia|].
    change (sleep 100 w1) with w1. rewrite (sim_isMounted w1 Hu1).
    destruct (IH fuel w1 (all ++ contacts_of (Some r)) (nextPageToken r) (S pc) te1 prog1)
      as [Hres Hlog]; try assumption.
    + intros i url. subst w1. cbn [transcript].
      rewrite length_app. cbn [length].
      replace (length (transcript w) + 1 + i)%nat with (length (transcript w) + S i)%nat by lia.
      now rewrite Hapi.
    + simpl. lia.
    + simpl. lia.
    + rewrite Hres, Hlog. split.
      * simpl. now rewrite <- app_assoc.
      * subst w1. cbn [transcript serve]. now rewrite <- app_assoc.
Qed.

(** An API that hands out a continuation token with every answer: the
    loop makes [fuel] requests, each carrying the token of the answer
    before, and stops at the page cap with all that it has gathered. *)
Lemma sim_endless_run (fuel : nat) :
  forall w allContacts pageToken pageCount totalEstimated progress,
    unmountAfter w = None ->
    (forall n url, exists r, api n url = Some r /\ has_token (nextPageToken r) = true) ->
    (0 < fuel)%nat ->
    (pageCount + fuel = maxPages)%nat ->
    let out := fetch_pages fuel w allContacts pageToken pageCount
                 totalEstimated progress in
    exists log,
      length log = fuel
      /\ transcript (world out) = transcript w ++ log
      /\ result out = Returned (allContacts ++ flat_map (fun e => contacts_of e.2) log)
      /\ chained pageToken log.
Proof.
  induction fuel as [|fuel IH];
    intros w all tok pc te prog Hu Hmore Hpos Hcap out; [lia|].
  subst out.
  rewrite fetch_pages_S, (sim_isMounted w Hu). cbn [negb].
  change (fetchWithToken (pageUrl tok) w)
    with (api (length (transcript w)) (pageUrl tok),
          {| transcript := transcript w ++ [(pageUrl tok, api (length (transcript w)) (pageUrl tok))];
             unmountAfter := unmountAfter w |}).
  destruct (Hmore (length (transcript w)) (pageUrl tok)) as (r & Hr & Htok).
  rewrite Hr.
  set (w1 := {| transcript := _; unmountAfter := _ |}).
  assert (Hu1 : unmountAfter w1 = None) by exact Hu.
  pose proof (take_page_contacts w1 r all te prog) as Hall.
  destruct (take_page w1 r all te prog) as [[all1 te1] prog1]. simpl in Hall. subst all1.
  destruct (Nat.leb_spec maxPages (S pc)) as [Hle|Hlt].
  - (* the page cap *)
    assert (fuel = 0%nat) by lia. subst fuel.
    exists [(pageUrl tok, Some r)]. simpl. rewrite app_nil_r. repeat split.
  - rewrite Htok, (sim_isMounted w1 Hu1). cbn [andb].
    change (sleep 100 w1) with w1. rewrite (sim_isMounted w1 Hu1).
    destruct (IH w1 (all ++ contacts_of (Some r)) (nextPageToken r) (S pc) te1 prog1)
      as (log & Hlen & Hlog & Hres & Hchain); try assumption; try lia.
    exists ((pageUrl tok, Some r) :: log). repeat split.
    + simpl. now rewrite Hlen.
    + rewrite Hlog. subst w1. cbn [transcript]. now rewrite <- app_assoc.
    + rewrite Hres. simpl. now rewrite <- app_assoc.
    + exact Hchain.
Qed.

Lemma sim_transcript_faithful (fuel : nat) :
  forall w allContacts pageToken pageCount totalEstimated progress,
    faithful api (transcript w) ->
    faithful api
      (transcript
         (world (fetch_pages fuel w allContacts pageToken pageCount
                   totalEstimated progress))).
Proof.
  induction fuel as [|fuel IH]; intros w all tok pc te prog Hw; [exact Hw|].
  rewrite fetch_pages_S.
  destruct (negb (isMounted w)); [exact Hw|].
  change (fetchWithToken (pageUrl tok) w)
    with (api (length (transcript w)) (pageUrl tok),
          {| transcript := transcript w ++ [(pageUrl tok, api (length (transcript w)) (pageUrl tok))];
             unmountAfter := unmountAfter w |}).
  set (w1 := {| transcript := _; unmountAfter := _ |}).
  assert (Hw1 : faithful api (transcript w1)) by (apply faithful_snoc, Hw).
  destruct (api (length (transcript w)) (pageUrl tok)) as [r|]; [|exact Hw1].
  destruct (take_page w1 r all te prog) as [[all1 te1] prog1].
  destruct (maxPages <=? S pc)%nat; [exact Hw1|].
  change (sleep 100 w1) with w1.
  assert (Hsame : (if has_token (nextPageToken r) && isMounted w1 then w1 else w1) = w1)
    by (destruct (_ && _); reflexivity).
  cbv zeta. rewrite Hsame.
  destruct (has_token (nextPageToken r) && isMounted w1); [|exact Hw1].
  apply IH, Hw1.
Qed.

End SimulatedRuns.

(** C1. Against a simulated API that answers with pages of 2000, 2000
    and 500 contacts, the first two with a continuation token and the
    third without, [fetchAllContacts] returns the 4500 contacts of the
    three pages and makes exactly three requests, in order: the first
    without a token, the second with the token of the first answer, the
    third with the token of the second answer. *)
Theorem fetchAllContacts_three_pages (encode : string -> string)
    (r1 r2 r3 : PageResponse) (c1 c2 c3 : list Contact) (t1 t2 : string) :
  connections r1 = Some c1 -> length c1 = 2000%nat ->
  nextPageToken r1 = Some t1 -> t1 <> EmptyString ->
  connections r2 = Some c2 -> length c2 = 2000%nat ->
  nextPageToken r2 = Some t2 -> t2 <> EmptyString ->
  connections r3 = Some c3 -> length c3 = 500%nat ->
  has_token (nextPageToken r3) = false ->
  let out := @fetchAllContacts _ (simRuntime (paged_api [r1; r2; r3]) encode)
               simStart None in
  result out = Returned (c1 ++ c2 ++ c3)
  /\ length (c1 ++ c2 ++ c3) = 4500%nat
  /\ transcript (world out)
     = [ (CONNECTIONS_URL, Some r1);
         (CONNECTIONS_URL +:+ "&pageToken=" +:+ encode t1, Some r2);
         (CONNECTIONS_URL +:+ "&pageToken=" +:+ encode t2, Some r3) ].
Proof.
  intros Hc1 Hl1 Ht1 Hn1 Hc2 Hl2 Ht2 Hn2 Hc3 Hl3 Ht3 out.
  apply nonempty_true in Hn1, Hn2.
  destruct (sim_paged_run (paged_api [r1; r2; r3]) encode [r1; r2; r3]
              maxPages simStart [] None 0%nat 0 None) as [Hres Hlog].
  - reflexivity.
  - intros i url. reflexivity.
  - simpl. rewrite Ht1, Ht2. simpl. auto.
  - unfold maxPages. simpl. lia.
  - unfold maxPages. simpl. lia.
  - subst out. unfold fetchAllContacts. unfold sim in Hres, Hlog. rewrite Hres, Hlog.
    cbn [serve flat_map]. unfold contacts_of. rewrite Hc1, Hc2, Hc3, Ht1, Ht2.
    unfold pageUrl. rewrite Hn1, Hn2.
    cbn [default transcript simStart app encodeURIComponent simRuntime].
    unfold Datatypes.id. rewrite app_nil_r. repeat split.
    rewrite !length_app, Hl1, Hl2, Hl3. reflexivity.
Qed.

(** C2. Against a simulated API whose every answer supplies a
    continuation token, the loop of [fetchAllContacts] stops after
    exactly 100 requests, each carrying the token of the answer before,
    and returns the contacts of those 100 answers. *)
Theorem fetchAllContacts_page_cap (api : nat -> string -> option PageResponse)
    (encode : string -> string) :
  (forall n url, exists r, api n url = Some r /\ has_token (nextPageToken r) = true) ->
  let out := @fetchAllContacts _ (simRuntime api encode) simStart None in
  length (requests (world out)) = 100%nat
  /\ result out
     = Returned (flat_map (fun e => contacts_of e.2) (transcript (world out)))
  /\ @chained _ (simRuntime api encode) None (transcript (world out))
  /\ faithful api (transcript (world out)).
Proof.
  intros Hmore out.
  destruct (sim_endless_run api encode maxPages simStart [] None 0%nat 0 None)
    as (log & Hlen & Hlog & Hres & Hchain); try reflexivity; try assumption.
  - unfold maxPages. lia.
  - subst out. unfold fetchAllContacts, requests.
    unfold sim in Hlog, Hres, Hchain.
    change (transcript simStart ++ log) with log in Hlog. rewrite Hlog.
    split; [now rewrite length_map|].
    split; [exact Hres|]. split; [exact Hchain|].
    rewrite <- Hlog. apply (sim_transcript_faithful api encode). intros i url response Hi.
    simpl in Hi. discriminate.
Qed.


(** C1, on three pages of numbered contacts. *)
Lemma fetchAllContacts_three_pages_witness :
  let out := @fetchAllContacts _
               (simRuntime (paged_api SimPages.three) SimPages.plain)
               simStart None in
  result out = Returned (map SimPages.carol (seq 0 2000)
                         ++ map SimPages.carol (seq 2000 2000)
                         ++ map SimPages.carol (seq 4000 500))
  /\ length (map SimPages.carol (seq 0 2000)
             ++ map SimPages.carol (seq 2000 2000)
             ++ map SimPages.carol (seq 4000 500)) = 4500%nat
  /\ transcript (world out)
     = [ (CONNECTIONS_URL, Some (SimPages.page 0 2000 (Some "tokenA")));
         (CONNECTIONS_URL +:+ "&pageToken=" +:+ "tokenA",
          Some (SimPages.page 2000 2000 (Some "tokenB")));
         (CONNECTIONS_URL +:+ "&pageToken=" +:+ "tokenB",
          Some (SimPages.page 4000 500 None)) ].
Proof.
  apply (fetchAllContacts_three_pages SimPages.plain
           (SimPages.page 0 2000 (Some "tokenA"))
           (SimPages.page 2000 2000 (Some "tokenB"))
           (SimPages.page 4000 500 None)
           (map SimPages.carol (seq 0 2000))
           (map SimPages.carol (seq 2000 2000))
           (map SimPages.carol (seq 4000 500))
           "tokenA" "tokenB");
    try reflexivity; try discriminate.
  all: rewrite length_map, length_seq; reflexivity.
Defined.

(** C2, on the API that never runs out of pages. *)
Lemma fetchAllContacts_page_cap_witness :
  let out := @fetchAllContacts _ (simRuntime SimPages.endless SimPages.plain)
               simStart None in
  length (requests (world out)) = 100%nat
  /\ result out
     = Returned (flat_map (fun e => contacts_of e.2) (transcript (world out)))
  /\ @chained _ (simRuntime SimPages.endless SimPages.plain) None
       (transcript (world out))
  /\ faithful SimPages.endless (transcript (world out)).
Proof.
  apply (fetchAllContacts_page_cap SimPages.endless SimPages.plain).
  intros n url. eexists. split; [reflexivity|]. reflexivity.
Defined.

(** Unmounting stops the loop: with the component gone after the second
    answer, the third page is never asked for and the two pages read so
    far are returned. *)
Example fetchAllContacts_unmounted :
  let out := @fetchAllContacts _
               (simRuntime (paged_api SimPages.three) SimPages.plain)
               {| transcript := []; unmountAfter := Some 2%nat |} None in
  length (requests (world out)) = 2%nat
  /\ result out = Returned (map SimPages.carol (seq 0 4000)).
Proof. vm_compute. split; reflexivity. Qed.

(** ** Obfuscated local store *)

Section StoreProperties.
Context `{Libs}.

Lemma decryptData_empty : decryptData EmptyString = VNull.
Proof. reflexivity. Qed.

(** A write that the storage accepts and whose text is not empty passes
    the verification read and stores the text of [encryptData]. *)
Lemma setItem_stores (st : Storage) (key : string) (value : Value) :
  getItem_throws st = None ->
  setItem_throws st key (encryptData value) = None ->
  nonempty (encryptData value) = true ->
  secureStorage.setItem st key value
  = with_items st (<[key := encryptData value]> (items st)).
Proof.
  intros Hget Hset Hne.
  unfold secureStorage.setItem, localStorage.setItem, localStorage.getItem.
  rewrite Hset. simpl. rewrite Hget, lookup_insert_eq. simpl. now rewrite Hne.
Qed.

(** A stored text that decrypts to something other than [null] is what
    [getItem] returns. *)
Lemma getItem_decrypted (st : Storage) (key text : string) :
  getItem_throws st = None ->
  items st !! key = Some text ->
  is_null (decryptData text) = false ->
  secureStorage.getItem st key = decryptData text.
Proof.
  intros Hget Hraw Hnull.
  unfold secureStorage.getItem, localStorage.getItem. rewrite Hget, Hraw.
  destruct (nonempty text) eqn:Hne.
  - now rewrite Hnull.
  - apply nonempty_false in Hne. subst text. now rewrite decryptData_empty in Hnull.
Qed.

(** A stored text that does not decrypt is read as plain JSON. *)
Lemma getItem_direct (st : Storage) (key text : string) :
  getItem_throws st = None ->
  items st !! key = Some text ->
  text <> EmptyString ->
  decryptData text = VNull ->
  secureStorage.getItem st key = default VNull (JSON_parse text).
Proof.
  intros Hget Hraw Hne Hdec. apply nonempty_true in Hne.
  unfold secureStorage.getItem, directStorage.getItem, localStorage.getItem.
  rewrite Hget, Hraw, Hdec, Hne. reflexivity.
Qed.

(** With a falsy value the first write stores the empty text, the
    verification read rejects it, and the direct write replaces it by the
    JSON text. *)
Lemma setItem_falsy_stores (st : Storage) (key : string) (value : Value) :
  truthy value = false ->
  getItem_throws st = None ->
  (forall text, setItem_throws st key text = None) ->
  encryptData value = EmptyString
  /\ secureStorage.setItem st key value
     = with_items st (<[key := default "undefined" (JSON_stringify value)]> (items st)).
Proof.
  intros Hfalsy Hget Hset.
  assert (Henc : encryptData value = EmptyString)
    by (unfold encryptData; now rewrite Hfalsy).
  split; [exact Henc|].
  unfold secureStorage.setItem, secureStorage.setItem_recover,
    directStorage.setItem, localStorage.setItem, localStorage.getItem.
  rewrite Henc, Hset. simpl. rewrite Hget, lookup_insert_eq. simpl.
  rewrite Hset. simpl. unfold with_items. simpl.
  now rewrite insert_insert_eq.
Qed.

(** What the round trip through [encryptData] and [decryptData] asks of
    the libraries, for one truthy value: the cipher text is not empty and
    not of the unencrypted form, it decrypts under the same key to the
    JSON text, and the JSON text parses to the value as JSON keeps it. *)
Lemma codec_roundtrip (value : Value) (key cipher : string) (plain : WordArray) :
  truthy value = true ->
  getEncryptionKey = Some key ->
  AES_encrypt (JSON_text value) (key_or_fallback key) = Some cipher ->
  cipher <> EmptyString ->
  String.prefix UNENCRYPTED_MARK cipher = false ->
  AES_decrypt cipher (key_or_fallback key) = Some plain ->
  0 < sigBytes plain ->
  toUtf8 plain = Some (JSON_text value) ->
  JSON_text value <> EmptyString ->
  JSON_parse (JSON_text value) = Some (json_clean value) ->
  decryptData (encryptData value) = json_clean value.
Proof.
  intros Htruthy Hkey Henc Hcipher Hmark Hdec Hbytes Hutf Htext Hparse.
  apply nonempty_true in Hcipher, Htext.
  unfold encryptData. rewrite Htruthy, Hkey. simpl. rewrite Henc.
  unfold decryptData, decrypt_primary. rewrite Hcipher, Hmark, Hkey. simpl.
  rewrite Hdec. simpl.
  destruct (Z.leb_spec (sigBytes plain) 0) as [Hle|_]; [lia|].
  rewrite Hutf. simpl. rewrite Htext. simpl. now rewrite Hparse.
Qed.

(** C10 (amended). For every key and every falsy value, [encryptData]
    returns the empty string; the verification read of [setItem] rejects
    the empty text and [setItem] falls back to direct storage, so that on
    a working storage the key ends up holding the JSON text of the value
    (the text [undefined] for [undefined]); that text being not empty
    and not decrypting, a later [getItem] returns what it parses to,
    which is
    the stored value itself for [null], [0], the empty string and
    [false], and [null] when the text does not parse. *)
Theorem setItem_falsy_roundtrip (st : Storage) (key : string) (value : Value) :
  truthy value = false ->
  getItem_throws st = None ->
  (forall text, setItem_throws st key text = None) ->
  default "undefined" (JSON_stringify value) <> EmptyString ->
  decryptData (default "undefined" (JSON_stringify value)) = VNull ->
  encryptData value = EmptyString
  /\ items (secureStorage.setItem st key value) !! key
     = Some (default "undefined" (JSON_stringify value))
  /\ secureStorage.getItem (secureStorage.setItem st key value) key
     = default VNull (JSON_parse (default "undefined" (JSON_stringify value))).
Proof.
  intros Hfalsy Hget Hset Hne Hdec.
  destruct (setItem_falsy_stores st key value Hfalsy Hget Hset) as [Henc Hst].
  split; [exact Henc|]. rewrite Hst. split.
  - simpl. apply lookup_insert_eq.
  - apply getItem_direct;
      [exact Hget | simpl; apply lookup_insert_eq | exact Hne | exact Hdec].
Qed.

(** C6 (amended). For every non-empty token whose expiry is a valid
    time, [storeTokens] followed by [getStoredTokens] yields the bundle
    with that token and with the expiry [getTokenExpiration] gives at
    store time, provided the storage accepts the write and the stored
    text decrypts to what was written. *)
Theorem storeTokens_getStoredTokens (st : Storage) (now : Z) (tok : string)
    (refresh : option string) :
  let bundle := {| token := tok; refreshToken := refresh;
                   expiresAt := getTokenExpiration now tok |} in
  tok <> EmptyString ->
  valid_time (getTokenExpiration now tok) = true ->
  getItem_throws st = None ->
  setItem_throws st "auth_tokens" (encryptData (TokenData_to_Value bundle)) = None ->
  decryptData (encryptData (TokenData_to_Value bundle))
  = json_clean (TokenData_to_Value bundle) ->
  getStoredTokens (storeTokens st now tok refresh) = Some bundle.
Proof.
  intros bundle Htok Hvalid Hget Hset Hdec.
  apply nonempty_true in Htok.
  assert (Hne : nonempty (encryptData (TokenData_to_Value bundle)) = true).
  { destruct (nonempty (encryptData (TokenData_to_Value bundle))) eqn:Hn;
      [reflexivity|].
    apply nonempty_false in Hn. rewrite Hn, decryptData_empty in Hdec.
    destruct refresh; discriminate. }
  unfold storeTokens. rewrite Hvalid. fold bundle.
  rewrite (setItem_stores st _ _ Hget Hset Hne).
  unfold getStoredTokens.
  rewrite (getItem_decrypted _ "auth_tokens" (encryptData (TokenData_to_Value bundle)));
    [| exact Hget | simpl; apply lookup_insert_eq
     | rewrite Hdec; destruct refresh; reflexivity ].
  rewrite Hdec. subst bundle.
  destruct refresh as [r|]; simpl; rewrite Htok; reflexivity.
Qed.

End StoreProperties.

(** The simulated libraries meet what [codec_roundtrip] asks for. *)
Example codec_roundtrip_sim :
  @decryptData Sim.libs (@encryptData Sim.libs SimCache.storedContacts)
  = json_clean SimCache.storedContacts.
Proof.
  eapply (@codec_roundtrip Sim.libs); try reflexivity; try discriminate.
Qed.

(** C10 on the simulated libraries, for the value [0]. *)
Lemma setItem_falsy_roundtrip_witness :
  @encryptData Sim.libs (VNum 0) = EmptyString
  /\ items (@secureStorage.setItem Sim.libs Sim.emptyStorage "user_pref_last_sync" (VNum 0))
       !! "user_pref_last_sync" = Some "0"
  /\ @secureStorage.getItem Sim.libs
       (@secureStorage.setItem Sim.libs Sim.emptyStorage "user_pref_last_sync" (VNum 0))
       "user_pref_last_sync" = VNum 0.
Proof.
  apply (@setItem_falsy_roundtrip Sim.libs Sim.emptyStorage "user_pref_last_sync" (VNum 0));
    [reflexivity | reflexivity | reflexivity | discriminate | reflexivity].
Defined.

(** C10 as stated fails: after [setItem] with the falsy value [0] the key
    holds the text of [0], not the empty string, and [getItem] returns
    the value [0], not [null]. *)
Lemma setItem_falsy_counterexample :
  let st := @secureStorage.setItem Sim.libs Sim.emptyStorage "user_pref_last_sync" (VNum 0) in
  truthy (VNum 0) = false
  /\ items st !! "user_pref_last_sync" <> Some EmptyString
  /\ @secureStorage.getItem Sim.libs st "user_pref_last_sync" <> VNull.
Proof. vm_compute. repeat split; discriminate. Qed.

(** The other falsy values: [false], the empty string and [null] come
    back as they were stored, [undefined] comes back as [null]. *)
Example setItem_falsy_values :
  let roundtrip v :=
    @secureStorage.getItem Sim.libs
      (@secureStorage.setItem Sim.libs Sim.emptyStorage "k" v) "k" in
  roundtrip (VBool false) = VBool false
  /\ roundtrip (VStr EmptyString) = VStr EmptyString
  /\ roundtrip VNull = VNull
  /\ roundtrip VUndefined = VNull.
Proof. vm_compute. repeat split. Qed.

(** C6 on the simulated libraries: an opaque access token stored at time
    1000 into an empty storage. *)
Lemma storeTokens_getStoredTokens_witness :
  @getStoredTokens Sim.libs
    (@storeTokens Sim.libs Sim.emptyStorage 1000 "ya29.a0AfH6SMB" None)
  = Some {| token := "ya29.a0AfH6SMB"; refreshToken := None;
            expiresAt := @getTokenExpiration Sim.libs 1000 "ya29.a0AfH6SMB" |}.
Proof.
  apply (@storeTokens_getStoredTokens Sim.libs Sim.emptyStorage 1000
           "ya29.a0AfH6SMB" None);
    [discriminate | reflexivity | reflexivity | reflexivity | reflexivity].
Defined.

(** C6 as stated fails: for the empty token the write succeeds (the key
    holds a text that is not empty) and [getStoredTokens] yields no
    bundle. *)
Lemma storeTokens_empty_token_counterexample :
  let st := @storeTokens Sim.libs Sim.emptyStorage 1000 EmptyString None in
  present (items st !! "auth_tokens") = true
  /\ @getStoredTokens Sim.libs st = None.
Proof. vm_compute. split; reflexivity. Qed.

(** A token whose [exp] claim is past the range of dates is stored with
    the default expiry, not with the claim. *)
Example storeTokens_out_of_range :
  let tok := Sim.jwt 9000000000000 in
  @getTokenExpiration Sim.libs 1000 tok = 9000000000000000
  /\ expiresAt <$> @getStoredTokens Sim.libs
                     (@storeTokens Sim.libs Sim.emptyStorage 1000 tok None)
     = Some 3601000.
Proof. vm_compute. split; reflexivity. Qed.

(** ** Loading the contact cache *)

Section LoaderProperties.
Context `{Libs}.




(** On a storage whose removals work, the bulk clear removes the three
    contact keys and nothing else. *)
Lemma clearContactsData_items (st : Storage) :
  (forall k, In k contactKeys -> removeItem_throws st k = None) ->
  items (secureStorage.clearContactsData st)
  = delete "google_contacts_metadata"
      (delete "google_contact_groups" (delete "google_contacts" (items st))).
Proof.
  intros Hrm.
  unfold secureStorage.clearContactsData, contactKeys, localStorage.removeItem.
  simpl.
  rewrite (Hrm "google_contacts") by (simpl; auto). simpl.
  rewrite (Hrm "google_contact_groups") by (simpl; auto). simpl.
  rewrite (Hrm "google_contacts_metadata") by (simpl; auto). reflexivity.
Qed.

Lemma clearContactsData_purges (st : Storage) :
  (forall k, In k contactKeys -> removeItem_throws st k = None) ->
  (forall k, In k contactKeys -> items (secureStorage.clearContactsData st) !! k = None)
  /\ (forall k, ~ In k contactKeys ->
        items (secureStorage.clearContactsData st) !! k = items st !! k).
Proof.
  intros Hrm. rewrite (clearContactsData_items st Hrm). split.
  - intros k [<-|[<-|[<-|[]]]].
    + rewrite !lookup_delete_ne by discriminate. apply lookup_delete_eq.
    + rewrite lookup_delete_ne by discriminate. apply lookup_delete_eq.
    + apply lookup_delete_eq.
  - intros k Hk. simpl in Hk.
    rewrite !lookup_delete_ne by (intros <-; apply Hk; auto). reflexivity.
Qed.



End LoaderProperties.



(** A cache without damage is loaded and left alone. *)
Example loadFromStorage_sound_cache :
  let st := @secureStorage.setItem Sim.libs Sim.emptyStorage
              "google_contacts" SimCache.storedContacts in
  let '(st', h') := @loadFromStorage Sim.libs st initialHook in
  contacts h' = SimCache.storedContacts
  /\ error h' = None
  /\ present (items st' !! "google_contacts") = true.
Proof. vm_compute. repeat split. Qed.

(** * Further properties *)

(** ** The storage wrappers *)

Section WrapperFacts.
Context `{Libs}.

Lemma directStorage_setItem_policy (st : Storage) (key : string) (value : Value) :
  getItem_throws (directStorage.setItem st key value) = getItem_throws st
  /\ setItem_throws (directStorage.setItem st key value) = setItem_throws st
  /\ removeItem_throws (directStorage.setItem st key value) = removeItem_throws st.
Proof.
  unfold directStorage.setItem, localStorage.setItem.
  destruct (setItem_throws st key _); simpl; repeat split.
Qed.

Lemma directStorage_setItem_other (st : Storage) (key k : string) (value : Value) :
  k <> key -> items (directStorage.setItem st key value) !! k = items st !! k.
Proof.
  intros Hne. unfold directStorage.setItem, localStorage.setItem.
  destruct (setItem_throws st key _); simpl; [reflexivity|].
  now apply lookup_insert_ne.
Qed.

Lemma setItem_recover_other (st : Storage) (key k : string) (value : Value) (e : Exn) :
  k <> key -> ~ In k contactKeys ->
  items (secureStorage.setItem_recover st key value e) !! k = items st !! k.
Proof.
  intros Hne Hk. unfold secureStorage.setItem_recover.
  destruct (is_quota_error e).
  - rewrite clearContactsData_other by exact Hk. now apply directStorage_setItem_other.
  - now apply directStorage_setItem_other.
Qed.

Lemma setItem_recover_policy (st : Storage) (key : string) (value : Value) (e : Exn) :
  getItem_throws (secureStorage.setItem_recover st key value e) = getItem_throws st
  /\ setItem_throws (secureStorage.setItem_recover st key value e) = setItem_throws st
  /\ removeItem_throws (secureStorage.setItem_recover st key value e)
     = removeItem_throws st.
Proof.
  unfold secureStorage.setItem_recover.
  destruct (directStorage_setItem_policy st key value) as (G1 & S1 & R1).
  destruct (is_quota_error e); [|repeat split; assumption].
  destruct (clearContactsData_policy (directStorage.setItem st key value))
    as (G2 & S2 & R2).
  repeat split; congruence.
Qed.

(** [setItem] changes the texts only: what throws before throws after. *)
Lemma setItem_policy (st : Storage) (key : string) (value : Value) :
  getItem_throws (secureStorage.setItem st key value) = getItem_throws st
  /\ setItem_throws (secureStorage.setItem st key value) = setItem_throws st
  /\ removeItem_throws (secureStorage.setItem st key value) = removeItem_throws st.
Proof.
  unfold secureStorage.setItem, localStorage.setItem, localStorage.getItem.
  destruct (setItem_throws st key (encryptData value)) as [e|];
    [apply setItem_recover_policy|].
  simpl. destruct (getItem_throws st) as [e|] eqn:Hg.
  - destruct (setItem_recover_policy
                (with_items st (<[key:=encryptData value]> (items st))) key value e)
      as (G & S & R).
    simpl in G, S, R. repeat split; congruence.
  - destruct (present _); [repeat split; assumption|].
    destruct (setItem_recover_policy
                (with_items st (<[key:=encryptData value]> (items st))) key value
                (Error "Storage verification failed: item not found after storing"))
      as (G & S & R).
    simpl in G, S, R. repeat split; congruence.
Qed.

Lemma setItem_other (st : Storage) (key k : string) (value : Value) :
  k <> key -> ~ In k contactKeys ->
  items (secureStorage.setItem st key value) !! k = items st !! k.
Proof.
  intros Hne Hk.
  unfold secureStorage.setItem, localStorage.setItem, localStorage.getItem.
  destruct (setItem_throws st key (encryptData value)) as [e|];
    [now apply setItem_recover_other|].
  simpl.
  assert (Hins : items (with_items st (<[key:=encryptData value]> (items st))) !! k
                 = items st !! k) by (simpl; now apply lookup_insert_ne).
  destruct (getItem_throws st) as [e|].
  - rewrite setItem_recover_other by assumption. exact Hins.
  - destruct (present _); [exact Hins|].
    rewrite setItem_recover_other by assumption. exact Hins.
Qed.

(** What [getItem] returns for a key depends on the text under that key
    and on whether reads throw, on nothing else. *)
Lemma getItem_ext (st st' : Storage) (key : string) :
  getItem_throws st' = getItem_throws st ->
  items st' !! key = items st !! key ->
  secureStorage.getItem st' key = secureStorage.getItem st key.
Proof.
  intros Hpol Hraw.
  unfold secureStorage.getItem, directStorage.getItem, localStorage.getItem.
  now rewrite Hpol, Hraw.
Qed.

Lemma getItem_absent (st : Storage) (key : string) :
  items st !! key = None -> secureStorage.getItem st key = VNull.
Proof.
  intros Hraw.
  unfold secureStorage.getItem, directStorage.getItem, localStorage.getItem.
  destruct (getItem_throws st); now rewrite ?Hraw.
Qed.

Lemma getItem_unreadable (st : Storage) (key : string) (e : Exn) :
  getItem_throws st = Some e -> secureStorage.getItem st key = VNull.
Proof.
  intros Hget.
  unfold secureStorage.getItem, directStorage.getItem, localStorage.getItem.
  now rewrite Hget.
Qed.

Lemma truthy_json_clean (v : Value) : truthy (json_clean v) = truthy v.
Proof. destruct v; reflexivity. Qed.

Lemma truthy_not_null (v : Value) : truthy v = true -> is_null v = false.
Proof. destruct v; simpl; congruence. Qed.

(** A truthy value whose cipher text decrypts to it and is accepted by the
    storage is stored under its cipher text and read back. *)
Lemma setItem_getItem (st : Storage) (key : string) (value : Value) :
  truthy value = true ->
  getItem_throws st = None ->
  setItem_throws st key (encryptData value) = None ->
  decryptData (encryptData value) = json_clean value ->
  items (secureStorage.setItem st key value) !! key = Some (encryptData value)
  /\ secureStorage.getItem (secureStorage.setItem st key value) key
     = json_clean value.
Proof.
  intros Htruthy Hget Hset Hdec.
  assert (Hnull : is_null (json_clean value) = false)
    by (apply truthy_not_null; now rewrite truthy_json_clean).
  assert (Hne : nonempty (encryptData value) = true).
  { destruct (nonempty (encryptData value)) eqn:Hn; [reflexivity|].
    apply nonempty_false in Hn. rewrite Hn, decryptData_empty in Hdec.
    rewrite <- Hdec in Hnull. discriminate. }
  rewrite (setItem_stores st key value Hget Hset Hne).
  split; [simpl; apply lookup_insert_eq|].
  rewrite (getItem_decrypted _ key (encryptData value));
    [exact Hdec | exact Hget | simpl; apply lookup_insert_eq | now rewrite Hdec].
Qed.

End WrapperFacts.

Section WrapperProperties.
Context `{Libs}.

(** X1. On a working storage, a truthy value written with [setItem] is
    read back by [getItem] (as JSON keeps it), and a second write under
    the same key replaces the first. *)
Theorem secureStorage_last_write_wins (st : Storage) (key : string) (v1 v2 : Value) :
  truthy v1 = true -> truthy v2 = true ->
  getItem_throws st = None ->
  (forall text, setItem_throws st key text = None) ->
  decryptData (encryptData v1) = json_clean v1 ->
  decryptData (encryptData v2) = json_clean v2 ->
  secureStorage.getItem (secureStorage.setItem st key v1) key = json_clean v1
  /\ secureStorage.getItem
       (secureStorage.setItem (secureStorage.setItem st key v1) key v2) key
     = json_clean v2.
Proof.
  intros Ht1 Ht2 Hget Hset Hd1 Hd2.
  destruct (setItem_getItem st key v1 Ht1 Hget (Hset _) Hd1) as [_ Hread1].
  split; [exact Hread1|].
  destruct (setItem_policy st key v1) as (G & S & _).
  apply setItem_getItem; try assumption.
  - now rewrite G.
  - rewrite S. apply Hset.
Qed.

(** X2. [setItem] never touches a key other than its own, the three
    contact keys apart: the text under such a key, and what [getItem]
    returns for it, are the same before and after, whether the write
    succeeds, falls back or fails. *)
Theorem setItem_leaves_other_keys (st : Storage) (key k : string) (value : Value) :
  k <> key -> ~ In k contactKeys ->
  items (secureStorage.setItem st key value) !! k = items st !! k
  /\ secureStorage.getItem (secureStorage.setItem st key value) k
     = secureStorage.getItem st k.
Proof.
  intros Hne Hk.
  assert (Hraw : items (secureStorage.setItem st key value) !! k = items st !! k)
    by now apply setItem_other.
  split; [exact Hraw|].
  destruct (setItem_policy st key value) as (G & _ & _).
  now apply getItem_ext.
Qed.

(** X3. When the write of [setItem] throws a quota error and removals
    work, [setItem] ends with none of the three contact keys in the
    storage, whatever key was being written: also a contact key written
    through the direct fallback is cleared again. *)
Theorem setItem_quota_clears_contacts (st : Storage) (key k : string)
    (value : Value) (e : Exn) :
  is_quota_error e = true ->
  setItem_throws st key (encryptData value) = Some e ->
  In k contactKeys ->
  removeItem_throws st k = None ->
  items (secureStorage.setItem st key value) !! k = None.
Proof.
  intros Hquota Hset Hk Hrm.
  unfold secureStorage.setItem, localStorage.setItem. rewrite Hset.
  unfold secureStorage.setItem_recover. rewrite Hquota.
  apply clearContactsData_gone; [exact Hk|].
  destruct (directStorage_setItem_policy st key value) as (_ & _ & R).
  now rewrite R.
Qed.

(** X4. The bulk clear removes each contact key on its own: a key whose
    removal works is removed also when the removal of another key
    throws, and the key whose removal throws keeps its text. *)
Theorem clearContactsData_best_effort (st : Storage) (k k' : string) (e : Exn) :
  In k contactKeys ->
  removeItem_throws st k = None ->
  removeItem_throws st k' = Some e ->
  items (secureStorage.clearContactsData st) !! k = None
  /\ items (secureStorage.clearContactsData st) !! k' = items st !! k'.
Proof.
  intros Hk Hrm Hstuck. split.
  - now apply clearContactsData_gone.
  - now apply (clearContactsData_kept st k' e).
Qed.

End WrapperProperties.

(** X1 on the simulated libraries. *)
Lemma secureStorage_last_write_wins_witness :
  @secureStorage.getItem Sim.libs
    (@secureStorage.setItem Sim.libs Sim.emptyStorage "user_pref_theme" (VStr "dark"))
    "user_pref_theme" = json_clean (VStr "dark")
  /\ @secureStorage.getItem Sim.libs
       (@secureStorage.setItem Sim.libs
          (@secureStorage.setItem Sim.libs Sim.emptyStorage "user_pref_theme" (VStr "dark"))
          "user_pref_theme" (VStr "light"))
       "user_pref_theme" = json_clean (VStr "light").
Proof.
  apply (@secureStorage_last_write_wins Sim.libs Sim.emptyStorage "user_pref_theme"
           (VStr "dark") (VStr "light")); reflexivity.
Defined.

(** X2 on a full storage: the failed write of the contacts leaves the
    theme alone. *)
Lemma setItem_leaves_other_keys_witness :
  items (@secureStorage.setItem Sim.libs (SimStores.full SimStores.cache)
           "google_contacts" SimCache.storedContacts) !! "user_pref_theme"
  = items (SimStores.full SimStores.cache) !! "user_pref_theme"
  /\ @secureStorage.getItem Sim.libs
       (@secureStorage.setItem Sim.libs (SimStores.full SimStores.cache)
          "google_contacts" SimCache.storedContacts) "user_pref_theme"
     = @secureStorage.getItem Sim.libs (SimStores.full SimStores.cache) "user_pref_theme".
Proof.
  apply (@setItem_leaves_other_keys Sim.libs (SimStores.full SimStores.cache)
           "google_contacts" "user_pref_theme" SimCache.storedContacts).
  - discriminate.
  - simpl. intros [Hk|[Hk|[Hk|[]]]]; discriminate.
Defined.

(** X3 on a full storage: writing the theme clears the contacts. *)
Lemma setItem_quota_clears_contacts_witness :
  items (@secureStorage.setItem Sim.libs (SimStores.full SimStores.cache)
           "user_pref_theme" (VStr "dark")) !! "google_contacts" = None.
Proof.
  apply (@setItem_quota_clears_contacts Sim.libs (SimStores.full SimStores.cache)
           "user_pref_theme" "google_contacts" (VStr "dark")
           (DOMException "QuotaExceededError")).
  - reflexivity.
  - reflexivity.
  - simpl. auto.
  - reflexivity.
Defined.

(** X4 with the removal of the contacts key throwing. *)
Lemma clearContactsData_best_effort_witness :
  items (secureStorage.clearContactsData
           (SimStores.sticky "google_contacts" SimStores.cache))
    !! "google_contact_groups" = None
  /\ items (secureStorage.clearContactsData
              (SimStores.sticky "google_contacts" SimStores.cache))
       !! "google_contacts"
     = items (SimStores.sticky "google_contacts" SimStores.cache) !! "google_contacts".
Proof.
  apply (clearContactsData_best_effort
           (SimStores.sticky "google_contacts" SimStores.cache)
           "google_contact_groups" "google_contacts" (DOMException "SecurityError")).
  - simpl. auto.
  - reflexivity.
  - reflexivity.
Defined.

(** ** Token lifecycle, continued *)

Section TokenLifecycle.
Context `{Libs}.

Lemma getStoredTokens_token (st : Storage) (td : TokenData) :
  getStoredTokens st = Some td -> nonempty (token td) = true.
Proof.
  unfold getStoredTokens, TokenData_of_Value.
  destruct (truthy (secureStorage.getItem st "auth_tokens")); simpl; [|discriminate].
  destruct (get_field (secureStorage.getItem st "auth_tokens") "token")
    as [| |b|n|t|l|f];
    simpl; try discriminate.
  - destruct b; discriminate.
  - destruct (n =? 0); discriminate.
  - destruct (nonempty t) eqn:Ht; simpl; [|discriminate].
    destruct (get_field (secureStorage.getItem st "auth_tokens") "expiresAt");
      try discriminate.
    intros [= <-]. exact Ht.
Qed.

(** The bundle [storeTokens] leaves behind is the one [getStoredTokens]
    finds. *)
Lemma getStoredTokens_after_store (st : Storage) (now : Z) (tok : string)
    (refresh : option string) :
  let bundle := {| token := tok; refreshToken := refresh;
                   expiresAt := getTokenExpiration now tok |} in
  nonempty tok = true ->
  valid_time (getTokenExpiration now tok) = true ->
  getItem_throws st = None ->
  setItem_throws st "auth_tokens" (encryptData (TokenData_to_Value bundle)) = None ->
  decryptData (encryptData (TokenData_to_Value bundle))
  = json_clean (TokenData_to_Value bundle) ->
  getStoredTokens (storeTokens st now tok refresh) = Some bundle.
Proof.
  intros bundle Htok Hvalid Hget Hset Hdec.
  unfold storeTokens. rewrite Hvalid. fold bundle.
  unfold getStoredTokens.
  destruct (setItem_getItem st "auth_tokens" (TokenData_to_Value bundle))
    as [_ Hread]; try assumption; [reflexivity|].
  rewrite Hread. subst bundle.
  destruct refresh as [r|]; simpl; rewrite Htok; reflexivity.
Qed.

(** For a token whose expiry is no valid time, the bundle left behind is
    the minimal one, with the default expiry. *)
Lemma getStoredTokens_after_store_default (st : Storage) (now : Z) (tok : string)
    (refresh : option string) :
  let bundle := {| token := tok; refreshToken := None;
                   expiresAt := now + 3600 * 1000 |} in
  nonempty tok = true ->
  valid_time (getTokenExpiration now tok) = false ->
  getItem_throws st = None ->
  setItem_throws st "auth_tokens" (encryptData (TokenData_to_Value bundle)) = None ->
  decryptData (encryptData (TokenData_to_Value bundle))
  = json_clean (TokenData_to_Value bundle) ->
  getStoredTokens (storeTokens st now tok refresh) = Some bundle.
Proof.
  intros bundle Htok Hvalid Hget Hset Hdec.
  unfold storeTokens. rewrite Hvalid. fold bundle.
  unfold getStoredTokens.
  destruct (setItem_getItem st "auth_tokens" (TokenData_to_Value bundle))
    as [_ Hread]; try assumption; [reflexivity|].
  rewrite Hread. subst bundle. simpl. rewrite Htok. reflexivity.
Qed.

(** X5. A bundle that [getStoredTokens] returns never has an empty
    token, and for it the check without argument is the lookahead test
    alone: expired exactly when [now] plus five minutes reaches the
    stored expiry. *)
Theorem getStoredTokens_sound (st : Storage) (td : TokenData) (now : Z) :
  getStoredTokens st = Some td ->
  token td <> EmptyString
  /\ (isTokenExpired st now None = true <-> expiresAt td <= now + 5 * 60 * 1000).
Proof.
  intros Hstored. pose proof (getStoredTokens_token st td Hstored) as Htok.
  split; [now apply nonempty_true|].
  unfold isTokenExpired. rewrite Hstored, Htok. simpl. apply Z.geb_le.
Qed.

(** X6. Expiry is monotone in time: what [isTokenExpired] reports as
    expired, for a given bundle or for the stored one, it reports as
    expired at every later time. *)
Theorem isTokenExpired_monotone (st : Storage) (now later : Z)
    (tokenData : option TokenData) :
  now <= later ->
  isTokenExpired st now tokenData = true ->
  isTokenExpired st later tokenData = true.
Proof.
  intros Hle. unfold isTokenExpired.
  destruct (match tokenData with Some td => Some td | None => getStoredTokens st end)
    as [td|]; [|reflexivity].
  destruct (nonempty (token td)); simpl; [|reflexivity].
  rewrite !Z.geb_le. lia.
Qed.

(** X7. A token without an [exp] claim, stored at time [now], counts as
    valid for fifty-five minutes: the check without argument turns true
    exactly at [now] plus 55 minutes. *)
Theorem storeTokens_valid_55_minutes (st : Storage) (now later : Z) (tok : string) :
  let bundle := {| token := tok; refreshToken := None;
                   expiresAt := now + 3600 * 1000 |} in
  tok <> EmptyString ->
  (forall decoded, jwtDecode tok = Some decoded -> exp decoded = None) ->
  valid_time (now + 3600 * 1000) = true ->
  getItem_throws st = None ->
  setItem_throws st "auth_tokens" (encryptData (TokenData_to_Value bundle)) = None ->
  decryptData (encryptData (TokenData_to_Value bundle))
  = json_clean (TokenData_to_Value bundle) ->
  (isTokenExpired (storeTokens st now tok None) later None = true
   <-> now + 55 * 60 * 1000 <= later).
Proof.
  intros bundle Htok Hexp Hvalid Hget Hset Hdec.
  apply nonempty_true in Htok.
  pose proof (getTokenExpiration_fallback now tok Hexp) as Hfall.
  pose proof (getStoredTokens_after_store st now tok None) as Hstored.
  simpl in Hstored. rewrite Hfall in Hstored.
  specialize (Hstored Htok Hvalid Hget Hset Hdec).
  unfold isTokenExpired. rewrite Hstored. simpl. rewrite Htok. simpl.
  rewrite Z.geb_le. lia.
Qed.

(** X8. After [clearTokens] on a storage that lets the key go there is no
    stored bundle, and the check without argument reports expiry at any
    time; the same holds whenever the storage cannot be read. *)
Theorem clearTokens_forgets (st : Storage) (now : Z) :
  removeItem_throws st "auth_tokens" = None
  \/ getItem_throws st <> None ->
  getStoredTokens (clearTokens st) = None
  /\ isTokenExpired (clearTokens st) now None = true.
Proof.
  intros Hcase.
  assert (Hnull : secureStorage.getItem (clearTokens st) "auth_tokens" = VNull).
  { unfold clearTokens. destruct Hcase as [Hrm|Hget].
    - apply getItem_absent. now apply removeItem_gone.
    - destruct (secureStorage_removeItem_policy st "auth_tokens") as (G & _ & _).
      destruct (getItem_throws st) as [e|] eqn:Hg; [|contradiction].
      apply (getItem_unreadable _ _ e). now rewrite G. }
  assert (Hnone : getStoredTokens (clearTokens st) = None)
    by (unfold getStoredTokens; now rewrite Hnull).
  split; [exact Hnone|].
  unfold isTokenExpired. now rewrite Hnone.
Qed.

End TokenLifecycle.

(** X5 on the simulated libraries: the bundle of a stored token. *)
Lemma getStoredTokens_sound_witness :
  "ya29.a0AfH6SMB" <> EmptyString
  /\ (@isTokenExpired Sim.libs
        (@storeTokens Sim.libs Sim.emptyStorage 1000 "ya29.a0AfH6SMB" None) 2000 None
      = true <-> 3601000 <= 2000 + 5 * 60 * 1000).
Proof.
  apply (@getStoredTokens_sound Sim.libs
           (@storeTokens Sim.libs Sim.emptyStorage 1000 "ya29.a0AfH6SMB" None)
           {| token := "ya29.a0AfH6SMB"; refreshToken := None; expiresAt := 3601000 |}
           2000).
  reflexivity.
Defined.

(** X6 on a bundle that expired at time 0. *)
Lemma isTokenExpired_monotone_witness :
  @isTokenExpired Sim.libs Sim.emptyStorage 5000 
    (Some {| token := "ya29.a0AfH6SMB"; refreshToken := None; expiresAt := 0 |}) = true.
Proof.
  apply (@isTokenExpired_monotone Sim.libs Sim.emptyStorage 0 5000
           (Some {| token := "ya29.a0AfH6SMB"; refreshToken := None; expiresAt := 0 |}));
    [lia | reflexivity].
Defined.

(** X7 on the simulated libraries, 54 minutes after the token was stored. *)
Lemma storeTokens_valid_55_minutes_witness :
  @isTokenExpired Sim.libs
    (@storeTokens Sim.libs Sim.emptyStorage 1000 "ya29.a0AfH6SMB" None)
    (1000 + 54 * 60 * 1000) None = true
  <-> 1000 + 55 * 60 * 1000 <= 1000 + 54 * 60 * 1000.
Proof.
  apply (@storeTokens_valid_55_minutes Sim.libs Sim.emptyStorage 1000
           (1000 + 54 * 60 * 1000) "ya29.a0AfH6SMB");
    try reflexivity; [discriminate|].
  intros decoded Hdec. vm_compute in Hdec. discriminate.
Defined.

(** X8 after a token was stored. *)
Lemma clearTokens_forgets_witness :
  @getStoredTokens Sim.libs
    (clearTokens (@storeTokens Sim.libs Sim.emptyStorage 1000 "ya29.a0AfH6SMB" None))
  = None
  /\ @isTokenExpired Sim.libs
       (clearTokens (@storeTokens Sim.libs Sim.emptyStorage 1000 "ya29.a0AfH6SMB" None))
       1000 None = true.
Proof.
  apply (@clearTokens_forgets Sim.libs
           (@storeTokens Sim.libs Sim.emptyStorage 1000 "ya29.a0AfH6SMB" None) 1000).
  left. reflexivity.
Defined.

(** ** Session context, continued *)

Section SessionProperties.
Context `{Libs}.

Lemma storeTokens_policy (st : Storage) (now : Z) (tok : string)
    (refresh : option string) :
  getItem_throws (storeTokens st now tok refresh) = getItem_throws st
  /\ setItem_throws (storeTokens st now tok refresh) = setItem_throws st
  /\ removeItem_throws (storeTokens st now tok refresh) = removeItem_throws st.
Proof.
  unfold storeTokens.
  destruct (valid_time (getTokenExpiration now tok)); apply setItem_policy.
Qed.

(** The storage a successful [login] leaves behind. *)
Lemma login_storage (p : AuthProvider) (now : Z) (tok : string) (u : User) :
  nonempty tok = true -> nonempty (email u) = true ->
  storage (login p now tok (Some u))
  = storeTokens (secureStorage.setItem (storage p) "user" (User_to_Value u))
      now tok None.
Proof.
  intros Htok Hmail. unfold login. rewrite Htok, Hmail. simpl.
  destruct (mountedRef p) eqn:Hm; [|reflexivity].
  unfold clearAuthError. simpl. rewrite Hm. reflexivity.
Qed.

(** X9. On a mounted provider, [login] with a non-empty token and a user
    that has an email makes the session authenticated with that user and
    token, with an expiry of [now] plus one hour whatever the token
    claims, clears the error and navigates to the root route; none of
    this depends on the storage accepting the writes. *)
Theorem login_authenticates (p : AuthProvider) (now : Z) (tok : string) (u : User) :
  tok <> EmptyString -> email u <> EmptyString -> mountedRef p = true ->
  let p' := login p now tok (Some u) in
  authState p'
  = {| user := Some u;
       tokens := Some {| access_token := tok; refresh_token := None;
                         id_token := None; expires_at := now + 3600 * 1000 |};
       isAuthenticated := true |}
  /\ authError p' = None
  /\ navigated p' = "/" :: navigated p.
Proof.
  intros Htok Hmail Hm. apply nonempty_true in Htok, Hmail.
  unfold login. rewrite Htok, Hmail. simpl. rewrite Hm. simpl.
  unfold clearAuthError. simpl. rewrite Hm. simpl. repeat split.
Qed.

(** X10. On a working storage, a successful [login] persists both the
    user and the token bundle: afterwards [getStoredTokens] returns the
    bundle with the expiry [getTokenExpiration] gives (the claim of the
    token, not the fixed hour of the session state) when that is a valid
    time, and with [now] plus one hour when it is not, and [getItem]
    returns the user record; mounted or not. *)
Theorem login_persists (p : AuthProvider) (now : Z) (tok : string) (u : User) :
  let bundle := {| token := tok; refreshToken := None;
                   expiresAt := if valid_time (getTokenExpiration now tok)
                                then getTokenExpiration now tok
                                else now + 3600 * 1000 |} in
  tok <> EmptyString -> email u <> EmptyString ->
  getItem_throws (storage p) = None ->
  (forall key text, setItem_throws (storage p) key text = None) ->
  decryptData (encryptData (User_to_Value u)) = User_to_Value u ->
  decryptData (encryptData (TokenData_to_Value bundle))
  = json_clean (TokenData_to_Value bundle) ->
  getStoredTokens (storage (login p now tok (Some u))) = Some bundle
  /\ secureStorage.getItem (storage (login p now tok (Some u))) "user"
     = User_to_Value u.
Proof.
  intros bundle Htok Hmail Hget Hset Hdu Hdt.
  apply nonempty_true in Htok, Hmail.
  rewrite (login_storage p now tok u Htok Hmail).
  set (st1 := secureStorage.setItem (storage p) "user" (User_to_Value u)).
  destruct (setItem_policy (storage p) "user" (User_to_Value u)) as (G1 & S1 & _).
  fold st1 in G1, S1.
  split.
  - subst bundle. revert Hdt.
    destruct (valid_time (getTokenExpiration now tok)) eqn:Hvalid; intros Hdt.
    + apply getStoredTokens_after_store; try assumption.
      * now rewrite G1.
      * rewrite S1. apply Hset.
    + apply getStoredTokens_after_store_default; try assumption.
      * now rewrite G1.
      * rewrite S1. apply Hset.
  - destruct (storeTokens_policy st1 now tok None) as (G2 & _ & _).
    assert (Hraw : items (storeTokens st1 now tok None) !! "user" = items st1 !! "user").
    { unfold storeTokens.
      destruct (valid_time (getTokenExpiration now tok));
        apply setItem_other; try discriminate;
        simpl; intros [Hk|[Hk|[Hk|[]]]]; discriminate. }
    rewrite (getItem_ext st1 _ "user" G2 Hraw). subst st1.
    destruct (setItem_getItem (storage p) "user" (User_to_Value u)) as [_ Hread];
      [reflexivity | exact Hget | apply Hset | exact Hdu | exact Hread].
Qed.

(** X11. [login] with a token but without a user, or with a user whose
    email is empty, changes neither the session state nor the storage
    nor the route, mounted or not; on a mounted provider it sets the
    error about the missing user, and after unmount it leaves the error
    as it was. *)
Theorem login_missing_user (p : AuthProvider) (now : Z) (tok : string)
    (userData : option User) :
  tok <> EmptyString ->
  (forall u, userData = Some u -> email u = EmptyString) ->
  let p' := login p now tok userData in
  authState p' = authState p
  /\ storage p' = storage p
  /\ navigated p' = navigated p
  /\ authError p'
     = if mountedRef p
       then Some "Authentication failed: Missing user information"
       else authError p.
Proof.
  intros Htok Huser. apply nonempty_true in Htok.
  unfold login. rewrite Htok. simpl.
  destruct userData as [u|].
  - rewrite (Huser u eq_refl). simpl. destruct (mountedRef p); repeat split.
  - destruct (mountedRef p); repeat split.
Qed.

(** X12. After [logout] on a storage that lets the two keys go, nothing of
    the session is left in it: [getStoredTokens] finds no bundle, the
    check without argument reports expiry, and [getItem] finds no user;
    mounted or not. *)
Theorem logout_forgets (p : AuthProvider) (now : Z) :
  removeItem_throws (storage p) "user" = None ->
  removeItem_throws (storage p) "auth_tokens" = None ->
  getStoredTokens (storage (logout p)) = None
  /\ isTokenExpired (storage (logout p)) now None = true
  /\ secureStorage.getItem (storage (logout p)) "user" = VNull.
Proof.
  intros Hru Hrt.
  assert (Hst : storage (logout p)
                = secureStorage.removeItem
                    (secureStorage.removeItem (storage p) "user") "auth_tokens")
    by (unfold logout, clearTokens; simpl; destruct (mountedRef p); reflexivity).
  rewrite Hst.
  destruct (secureStorage_removeItem_policy (storage p) "user") as (_ & _ & R).
  assert (Htok : secureStorage.getItem
                   (secureStorage.removeItem
                      (secureStorage.removeItem (storage p) "user") "auth_tokens")
                   "auth_tokens" = VNull).
  { apply getItem_absent, removeItem_gone. now rewrite R. }
  assert (Hnone : getStoredTokens
                    (secureStorage.removeItem
                       (secureStorage.removeItem (storage p) "user") "auth_tokens")
                  = None)
    by (unfold getStoredTokens; now rewrite Htok).
  split; [exact Hnone|]. split.
  - unfold isTokenExpired. now rewrite Hnone.
  - apply getItem_absent. rewrite removeItem_other by discriminate.
    now apply removeItem_gone.
Qed.

End SessionProperties.

(** X9 on a provider whose storage is full: the session is established
    although nothing can be written. *)
Lemma login_authenticates_witness :
  let p := {| authState := unauthenticated; authError := Some "old";
              mountedRef := true; navigated := ["/login"];
              storage := SimStores.full ∅ |} in
  let p' := @login Sim.libs p 1000 "ya29.a0AfH6SMB" (Some SimSession.alice) in
  authState p'
  = {| user := Some SimSession.alice;
       tokens := Some {| access_token := "ya29.a0AfH6SMB"; refresh_token := None;
                         id_token := None; expires_at := 1000 + 3600 * 1000 |};
       isAuthenticated := true |}
  /\ authError p' = None
  /\ navigated p' = "/" :: ["/login"].
Proof.
  intros p.
  apply (@login_authenticates Sim.libs p 1000 "ya29.a0AfH6SMB" SimSession.alice);
    [discriminate | discriminate | reflexivity].
Defined.

(** X10 on the simulated libraries, with a token whose [exp] claim is
    past the range of dates: the stored expiry is the default one. *)
Lemma login_persists_witness :
  @getStoredTokens Sim.libs
    (storage (@login Sim.libs (SimSession.fresh true) 1000 (Sim.jwt 9000000000000)
                (Some SimSession.alice)))
  = Some {| token := Sim.jwt 9000000000000; refreshToken := None;
            expiresAt :=
              if valid_time (@getTokenExpiration Sim.libs 1000 (Sim.jwt 9000000000000))
              then @getTokenExpiration Sim.libs 1000 (Sim.jwt 9000000000000)
              else 1000 + 3600 * 1000 |}
  /\ @secureStorage.getItem Sim.libs
       (storage (@login Sim.libs (SimSession.fresh true) 1000 (Sim.jwt 9000000000000)
                   (Some SimSession.alice))) "user"
     = User_to_Value SimSession.alice.
Proof.
  apply (@login_persists Sim.libs (SimSession.fresh true) 1000 (Sim.jwt 9000000000000)
           SimSession.alice);
    try reflexivity; discriminate.
Defined.

(** There the stored expiry is 3601000, with a claim of 9000000000000
    seconds; and a claim within the range is stored as it is. *)
Example login_persists_expiry :
  expiresAt <$> @getStoredTokens Sim.libs
    (storage (@login Sim.libs (SimSession.fresh true) 1000 (Sim.jwt 9000000000000)
                (Some SimSession.alice)))
  = Some 3601000
  /\ expiresAt <$> @getStoredTokens Sim.libs
       (storage (@login Sim.libs (SimSession.fresh true) 1000 (Sim.jwt 1700000000)
                   (Some SimSession.alice)))
     = Some 1700000000000.
Proof. vm_compute. split; reflexivity. Qed.

(** X11 with a user whose email is empty, after the provider was
    unmounted with an error set. *)
Lemma login_missing_user_witness :
  let nobody := {| id := "7"; name := "Nobody"; email := EmptyString;
                   picture := EmptyString |} in
  let p := setAuthError (SimSession.fresh false) (Some "earlier") in
  let p' := @login Sim.libs p 1000 "ya29.a0AfH6SMB" (Some nobody) in
  authState p' = authState p
  /\ storage p' = storage p
  /\ navigated p' = navigated p
  /\ authError p'
     = if mountedRef p
       then Some "Authentication failed: Missing user information"
       else authError p.
Proof.
  intros nobody p.
  apply (@login_missing_user Sim.libs p 1000 "ya29.a0AfH6SMB" (Some nobody));
    [discriminate|].
  intros u [= <-]. reflexivity.
Defined.

(** X12 after a login on the simulated libraries. *)
Lemma logout_forgets_witness :
  let signed := @login Sim.libs (SimSession.fresh true) 1000 "ya29.a0AfH6SMB"
                  (Some SimSession.alice) in
  @getStoredTokens Sim.libs (storage (logout signed)) = None
  /\ @isTokenExpired Sim.libs (storage (logout signed)) 1000 None = true
  /\ @secureStorage.getItem Sim.libs (storage (logout signed)) "user" = VNull.
Proof.
  intros signed.
  apply (@logout_forgets Sim.libs signed 1000); reflexivity.
Defined.

(** ** Contact labels, continued *)

(** X13. Every label that [getContactLabels] returns is of type [group]
    and has a name that is not empty: the name of the group when the
    group is known and named, the text built from the resource name
    otherwise. *)
Theorem getContactLabels_wellformed (groups : gmap string ContactGroup)
    (contact : Contact) (label : ContactLabel) :
  In label (getContactLabels groups contact) ->
  label_type label = Some "group" /\ label_name label <> EmptyString.
Proof.
  unfold getContactLabels.
  destruct (memberships contact) as [ms|]; [|intros []].
  rewrite label_loop. simpl. rewrite in_map_iff.
  intros (g & <- & _). unfold group_label.
  destruct (groups !! g) as [group|]; simpl.
  - split; [reflexivity|].
    destruct (nonempty (group_name group)) eqn:Hn.
    + now apply nonempty_true.
    + discriminate.
  - split; [reflexivity | discriminate].
Qed.

(** X13 on the label of a known group. *)
Lemma getContactLabels_wellformed_witness :
  label_type {| label_name := "Friends"; label_type := Some "group" |} = Some "group"
  /\ label_name {| label_name := "Friends"; label_type := Some "group" |} <> EmptyString.
Proof.
  apply (getContactLabels_wellformed SimContacts.groups SimContacts.bob
           {| label_name := "Friends"; label_type := Some "group" |}).
  simpl. auto.
Defined.

(** ** Pagination, continued *)

Section PaginationProgress.
Context {World : Type} `{Runtime World}.

Lemma fetch_pages_progress (fuel : nat) :
  forall w allContacts pageToken pageCount totalEstimated progress,
    (0 < fuel)%nat -> (maxPages <= pageCount + fuel)%nat ->
    let out := fetch_pages fuel w allContacts pageToken pageCount totalEstimated
                 progress in
    isMounted (world out) = true -> syncProgress out = None.
Proof.
  induction fuel as [|fuel IH]; intros w all tok pc te prog Hpos Hcap; [lia|].
  cbv zeta. rewrite fetch_pages_S.
  destruct (isMounted w) eqn:Hw; simpl negb; cbv iota.
  2: { simpl. congruence. }
  destruct (fetchWithToken (pageUrl tok) w) as [[r|] w1].
  2: { simpl. intros ->. reflexivity. }
  destruct (take_page w1 r all te prog) as [[all1 te1] prog1].
  destruct (Nat.leb_spec maxPages (S pc)).
  { unfold fetch_done. simpl. intros ->. reflexivity. }
  cbv zeta.
  destruct (has_token (nextPageToken r) && isMounted _).
  - apply IH; lia.
  - unfold fetch_done. simpl. intros ->. reflexivity.
Qed.

(** X15. When [fetchAllContacts] ends with the component still mounted,
    the sync progress has been cleared, whether the contacts were
    returned or a page failed. *)
Theorem fetchAllContacts_clears_progress (w : World) (progress : option (Z * Z)) :
  isMounted (world (fetchAllContacts w progress)) = true ->
  syncProgress (fetchAllContacts w progress) = None
  /\ result (fetchAllContacts w progress) <> OutOfFuel.
Proof.
  intros Hm. split.
  - apply (fetch_pages_progress maxPages w [] None 0%nat 0 progress);
      [unfold maxPages; lia | unfold maxPages; lia | exact Hm].
  - apply fetch_pages_enough_fuel; unfold maxPages; lia.
Qed.

End PaginationProgress.

Section SimulatedInvariants.
Variable api : nat -> string -> option PageResponse.
Variable encode : string -> string.

#[local] Instance simInv : Runtime SimWorld := simRuntime api encode.

(** What every run of the loop on a simulated world keeps: the requests
    are bounded by the fuel and by the moment of unmounting, the contacts
    are those of the answers, and a rejection comes with a null answer as
    the last one. *)
Lemma sim_run_shape (fuel : nat) :
  forall w allContacts pageToken pageCount totalEstimated progress,
    Forall (fun e => is_Some e.2) (transcript w) ->
    allContacts = flat_map (fun e => contacts_of e.2) (transcript w) ->
    let out := fetch_pages fuel w allContacts pageToken pageCount
                 totalEstimated progress in
    (length (transcript (world out)) <= length (transcript w) + fuel)%nat
    /\ (forall k, unmountAfter w = Some k ->
          (length (transcript (world out)) <= Nat.max (length (transcript w)) k)%nat)
    /\ match result out with
       | Returned cs =>
           cs = flat_map (fun e => contacts_of e.2) (transcript (world out))
           /\ Forall (fun e => is_Some e.2) (transcript (world out))
       | Rejected e =>
           e = Error "Failed to fetch contacts page"
           /\ exists log url,
                transcript (world out) = log ++ [(url, None)]
                /\ Forall (fun e => is_Some e.2) log
       | OutOfFuel => True
       end.
Proof.
  induction fuel as [|fuel IH]; intros w all tok pc te prog Hans Hall out.
  { subst out. simpl. repeat split; [lia | intros; lia]. }
  subst out. rewrite fetch_pages_S.
  destruct (isMounted w) eqn:Hw; simpl negb; cbv iota.
  2: { simpl. repeat split; [lia | intros; lia | exact Hall | exact Hans]. }
  assert (Hk : forall k, unmountAfter w = Some k -> (length (transcript w) < k)%nat).
  { intros k Hu. simpl in Hw. rewrite Hu in Hw. now apply Nat.ltb_lt. }
  change (fetchWithToken (pageUrl tok) w)
    with (api (length (transcript w)) (pageUrl tok),
          {| transcript := transcript w ++ [(pageUrl tok, api (length (transcript w)) (pageUrl tok))];
             unmountAfter := unmountAfter w |}).
  destruct (api (length (transcript w)) (pageUrl tok)) as [r|].
  2: { simpl. rewrite length_app. simpl. repeat split.
       - lia.
       - intros k Hu. specialize (Hk k Hu). lia.
       - exists (transcript w), (pageUrl tok). split; [reflexivity | exact Hans]. }
  set (w1 := {| transcript := _; unmountAfter := _ |}).
  assert (Hlen1 : length (transcript w1) = S (length (transcript w)))
    by (subst w1; simpl; rewrite length_app; simpl; lia).
  assert (Hans1 : Forall (fun e => is_Some e.2) (transcript w1)).
  { subst w1. simpl. apply Forall_app. split; [exact Hans|].
    constructor; [simpl; eauto | constructor]. }
  pose proof (take_page_contacts w1 r all te prog) as Htake.
  destruct (take_page w1 r all te prog) as [[all1 te1] prog1]. simpl in Htake.
  assert (Hall1 : all1 = flat_map (fun e => contacts_of e.2) (transcript w1)).
  { subst w1 all1. simpl. rewrite flat_map_app. simpl.
    now rewrite app_nil_r, <- Hall. }
  assert (Hdone : let out := fetch_done w1 all1 prog1 in
            (length (transcript (world out)) <= length (transcript w) + S fuel)%nat
            /\ (forall k, unmountAfter w = Some k ->
                  (length (transcript (world out)) <= Nat.max (length (transcript w)) k)%nat)
            /\ match result out with
               | Returned cs =>
                   cs = flat_map (fun e => contacts_of e.2) (transcript (world out))
                   /\ Forall (fun e => is_Some e.2) (transcript (world out))
               | Rejected e =>
                   e = Error "Failed to fetch contacts page"
                   /\ exists log url,
                        transcript (world out) = log ++ [(url, None)]
                        /\ Forall (fun e => is_Some e.2) log
               | OutOfFuel => True
               end).
  { unfold fetch_done. cbn [world result]. rewrite Hlen1. repeat split.
    - lia.
    - intros k Hu. specialize (Hk k Hu). lia.
    - exact Hall1.
    - exact Hans1. }
  destruct (maxPages <=? S pc)%nat; [exact Hdone|].
  change (sleep 100 w1) with w1.
  assert (Hsame : (if has_token (nextPageToken r) && isMounted w1 then w1 else w1) = w1)
    by (destruct (_ && _); reflexivity).
  cbv zeta. rewrite Hsame.
  destruct (has_token (nextPageToken r) && isMounted w1); [|exact Hdone].
  destruct (IH w1 all1 (nextPageToken r) (S pc) te1 prog1 Hans1 Hall1)
    as (Hb & Hu & Hres).
  rewrite Hlen1 in Hb, Hu. repeat split.
  - lia.
  - intros k Hun. specialize (Hu k Hun). specialize (Hk k Hun). lia.
  - exact Hres.
Qed.

End SimulatedInvariants.

(** X14. Against any simulated API, and whenever the component is
    unmounted, [fetchAllContacts] makes at most 100 requests; what it
    returns is exactly the contacts of the answers it got, in order, none
    of them null; and when it rejects, it is with the error of a failed
    page and the last answer, and only that one, was null. *)
Theorem fetchAllContacts_exact (api : nat -> string -> option PageResponse)
    (encode : string -> string) (schedule : option nat) (progress : option (Z * Z)) :
  let out := @fetchAllContacts _ (simRuntime api encode)
               {| transcript := []; unmountAfter := schedule |} progress in
  (length (requests (world out)) <= 100)%nat
  /\ match result out with
     | Returned cs =>
         cs = flat_map (fun e => contacts_of e.2) (transcript (world out))
         /\ Forall (fun e => is_Some e.2) (transcript (world out))
     | Rejected e =>
         e = Error "Failed to fetch contacts page"
         /\ exists log url,
              transcript (world out) = log ++ [(url, None)]
              /\ Forall (fun e => is_Some e.2) log
     | OutOfFuel => False
     end.
Proof.
  intros out.
  destruct (sim_run_shape api encode maxPages
              {| transcript := []; unmountAfter := schedule |} [] None 0%nat 0 progress)
    as (Hb & _ & Hres); [constructor | reflexivity |].
  pose proof (@fetch_pages_enough_fuel _ (simRuntime api encode) maxPages
                {| transcript := []; unmountAfter := schedule |} [] None 0%nat 0 progress)
    as Hfuel.
  split.
  - subst out. unfold requests, fetchAllContacts. rewrite length_map.
    unfold simInv in Hb. exact Hb.
  - subst out. unfold fetchAllContacts. unfold simInv in Hres.
    destruct (result _); [exact Hres | exact Hres |].
    apply Hfuel; [unfold maxPages; lia | unfold maxPages; lia | reflexivity].
Qed.

(** X16. Against any simulated API, no request is made once the component
    is unmounted: unmounted after [k] answers, [fetchAllContacts] has
    made at most [k] requests. *)
Theorem fetchAllContacts_stops_on_unmount (api : nat -> string -> option PageResponse)
    (encode : string -> string) (k : nat) (progress : option (Z * Z)) :
  let out := @fetchAllContacts _ (simRuntime api encode)
               {| transcript := []; unmountAfter := Some k |} progress in
  (length (requests (world out)) <= k)%nat
  /\ exists cs, result out = Returned cs \/ result out = Rejected (Error "Failed to fetch contacts page").
Proof.
  intros out.
  destruct (sim_run_shape api encode maxPages
              {| transcript := []; unmountAfter := Some k |} [] None 0%nat 0 progress)
    as (_ & Hu & Hres); [constructor | reflexivity |].
  pose proof (@fetch_pages_enough_fuel _ (simRuntime api encode) maxPages
                {| transcript := []; unmountAfter := Some k |} [] None 0%nat 0 progress)
    as Hfuel.
  split.
  - subst out. unfold requests, fetchAllContacts. rewrite length_map.
    unfold simInv in Hu. exact (Hu k eq_refl).
  - subst out. unfold fetchAllContacts. unfold simInv in Hres.
    destruct (result _) as [cs|e|] eqn:Hr.
    + exists cs. now left.
    + exists []. right. destruct Hres as [-> _]. reflexivity.
    + exfalso. apply Hfuel; [unfold maxPages; lia | unfold maxPages; lia | reflexivity].
Qed.

(** X15 on the three simulated pages. *)
Lemma fetchAllContacts_clears_progress_witness :
  syncProgress (@fetchAllContacts _
                  (simRuntime (paged_api SimPages.three) SimPages.plain)
                  simStart (Some (17, 34))) = None
  /\ result (@fetchAllContacts _
               (simRuntime (paged_api SimPages.three) SimPages.plain)
               simStart (Some (17, 34))) <> OutOfFuel.
Proof.
  apply (@fetchAllContacts_clears_progress _
           (simRuntime (paged_api SimPages.three) SimPages.plain)
           simStart (Some (17, 34))).
  vm_compute. reflexivity.
Defined.

(** A page that fails: the second answer is null, the run is rejected and
    the first page is not returned. *)
Example fetchAllContacts_failed_page :
  let out := @fetchAllContacts _
               (simRuntime (paged_api [SimPages.page 0 3 (Some "tokenA")]) SimPages.plain)
               simStart None in
  result out = Rejected (Error "Failed to fetch contacts page")
  /\ length (requests (world out)) = 2%nat.
Proof. vm_compute. split; reflexivity. Qed.

(** ** Organizations and email addresses *)

Lemma find_first {A : Type} (f : A -> bool) (l : list A) (x : A) :
  List.find f l = Some x ->
  f x = true
  /\ exists pre post, l = pre ++ x :: post /\ forall y, In y pre -> f y = false.
Proof.
  induction l as [|a l IH]; simpl; [discriminate|].
  destruct (f a) eqn:Ha.
  - intros [= <-]. split; [exact Ha|]. exists [], l. split; [reflexivity | intros y []].
  - intros Hfind. destruct (IH Hfind) as (Hx & pre & post & -> & Hpre).
    split; [exact Hx|]. exists (a :: pre), post. split; [reflexivity|].
    intros y [<-|Hy]; [exact Ha | now apply Hpre].
Qed.

(** X17. For a contact with at least one organization,
    [getOrganizationDetails] returns the details of one of them: of the
    first one flagged primary, or, when none is flagged, of the first
    one; missing names, titles and departments come out as empty
    strings. *)
Theorem getOrganizationDetails_choice (contact : Contact)
    (orgs : list ContactOrganization) :
  organizations contact = Some orgs -> orgs <> [] ->
  exists org,
    getOrganizationDetails contact = Some (organization_details org)
    /\ In org orgs
    /\ ((is_primary org = true
         /\ exists pre post, orgs = pre ++ org :: post
                             /\ forall x, In x pre -> is_primary x = false)
        \/ (hd_error orgs = Some org
            /\ forall x, In x orgs -> is_primary x = false)).
Proof.
  intros Horgs Hne. unfold getOrganizationDetails. rewrite Horgs.
  destruct orgs as [|first rest]; [contradiction|].
  destruct (List.find is_primary (first :: rest)) as [org|] eqn:Hfind.
  - exists org. destruct (find_first _ _ _ Hfind) as (Hp & pre & post & Heq & Hpre).
    split; [reflexivity|]. split.
    + rewrite Heq. apply in_or_app. right. now left.
    + left. split; [exact Hp|]. now exists pre, post.
  - exists first. split; [reflexivity|]. split; [now left|].
    right. split; [reflexivity|].
    intros x Hx. exact (find_none _ _ Hfind x Hx).
Qed.

(** A contact without organizations has no details. *)
Lemma getOrganizationDetails_none (contact : Contact) :
  getOrganizationDetails contact = None
  <-> default [] (organizations contact) = [].
Proof.
  unfold getOrganizationDetails.
  destruct (organizations contact) as [[|first rest]|]; simpl;
    split; congruence.
Qed.

(** X18. [getContactsWithEmail] returns, in their order, exactly the
    cached contacts that have at least one email address, and applying it
    again changes nothing. *)
Theorem getContactsWithEmail_exact (cached : list Contact) :
  (forall contact,
     In contact (getContactsWithEmail cached)
     <-> In contact cached
         /\ exists first rest, emailAddresses contact = Some (first :: rest))
  /\ getContactsWithEmail (getContactsWithEmail cached) = getContactsWithEmail cached
  /\ sublist (getContactsWithEmail cached) cached.
Proof.
  assert (Hhas : forall c, has_email c = true
                 <-> exists first rest, emailAddresses c = Some (first :: rest)).
  { intros c. unfold has_email.
    destruct (emailAddresses c) as [[|a l]|]; simpl; split;
      try discriminate; try (intros (? & ? & [=])); eauto. }
  split; [|split].
  - intros c. unfold getContactsWithEmail. rewrite filter_In, Hhas. reflexivity.
  - unfold getContactsWithEmail.
    induction cached as [|c l IH]; simpl; [reflexivity|].
    destruct (has_email c) eqn:Hc; simpl; [rewrite Hc, IH|]; auto.
  - unfold getContactsWithEmail.
    induction cached as [|c l IH]; simpl; [constructor|].
    destruct (has_email c); [now apply sublist_skip | now apply sublist_cons].
Qed.

(** X17 on a contact whose second organization is the primary one. *)
Lemma getOrganizationDetails_choice_witness :
  exists org,
    getOrganizationDetails SimOrgs.dave = Some (organization_details org)
    /\ In org [SimOrgs.acme; SimOrgs.globex]
    /\ ((is_primary org = true
         /\ exists pre post, [SimOrgs.acme; SimOrgs.globex] = pre ++ org :: post
                             /\ forall x, In x pre -> is_primary x = false)
        \/ (hd_error [SimOrgs.acme; SimOrgs.globex] = Some org
            /\ forall x, In x [SimOrgs.acme; SimOrgs.globex] -> is_primary x = false)).
Proof.
  apply (getOrganizationDetails_choice SimOrgs.dave [SimOrgs.acme; SimOrgs.globex]);
    [reflexivity | discriminate].
Defined.

Example getOrganizationDetails_dave :
  getOrganizationDetails SimOrgs.dave
  = Some {| details_name := "Globex"; details_title := "CTO";
            details_department := EmptyString |}.
Proof. reflexivity. Qed.

(** ** Preferences *)

Lemma json_clean_obj (fields : list (string * Value)) :
  json_clean (VObj fields) = VObj (clean_props fields).
Proof. reflexivity. Qed.

Lemma clean_props_length (fields : list (string * Value)) :
  (length (clean_props fields) <= length fields)%nat.
Proof.
  induction fields as [|[k x] fields IH]; simpl; [lia|].
  destruct x; simpl; lia.
Qed.

Lemma assoc_set_prop_eq (k : string) (v : Value) (fields : list (string * Value)) :
  assoc k (set_prop k v fields) = Some v.
Proof.
  induction fields as [|[k' v'] fields IH]; simpl.
  - now rewrite String.eqb_refl.
  - destruct (String.eqb_spec k k') as [->|Hne]; simpl.
    + now rewrite String.eqb_refl.
    + destruct (String.eqb_spec k k'); [contradiction | exact IH].
Qed.

Lemma assoc_set_prop_ne (k k' : string) (v : Value) (fields : list (string * Value)) :
  k' <> k -> assoc k' (set_prop k v fields) = assoc k' fields.
Proof.
  intros Hne. induction fields as [|[k0 v0] fields IH]; simpl.
  - destruct (String.eqb_spec k' k); [contradiction | reflexivity].
  - destruct (String.eqb_spec k k0) as [->|Hk]; simpl.
    + destruct (String.eqb_spec k' k0); [contradiction | reflexivity].
    + destruct (String.eqb_spec k' k0); [reflexivity | exact IH].
Qed.

Lemma clean_props_cons (k : string) (x : Value) (rest : list (string * Value)) :
  x <> VUndefined ->
  clean_props ((k, x) :: rest) = (k, json_clean x) :: clean_props rest.
Proof. intros Hx. destruct x; [contradiction | reflexivity ..]. Qed.

Lemma clean_props_fixed (k : string) (x : Value) (rest : list (string * Value)) :
  clean_props ((k, x) :: rest) = (k, x) :: rest ->
  x <> VUndefined /\ json_clean x = x /\ clean_props rest = rest.
Proof.
  intros Hfix.
  assert (Hx : x <> VUndefined).
  { intros ->. simpl in Hfix.
    pose proof (clean_props_length rest) as Hlen. rewrite Hfix in Hlen.
    simpl in Hlen. lia. }
  rewrite clean_props_cons in Hfix by exact Hx.
  injection Hfix as Hv Hrest. auto.
Qed.

(** Writing a value that JSON keeps into fields that JSON keeps gives
    fields that JSON keeps. *)
Lemma set_prop_clean (k : string) (v : Value) (fields : list (string * Value)) :
  clean_props fields = fields -> json_clean v = v -> v <> VUndefined ->
  clean_props (set_prop k v fields) = set_prop k v fields.
Proof.
  intros Hf Hv Hu.
  induction fields as [|[k0 v0] fields IH]; cbn [set_prop].
  - rewrite clean_props_cons by exact Hu. now rewrite Hv.
  - destruct (clean_props_fixed k0 v0 fields Hf) as (Hu0 & Hv0 & Hrest).
    destruct (String.eqb k k0).
    + rewrite clean_props_cons by exact Hu. now rewrite Hv, Hrest.
    + rewrite clean_props_cons by exact Hu0. now rewrite Hv0, (IH Hrest).
Qed.

Section PreferenceProperties.
Context `{Libs}.

Lemma or_else_truthy (x y : Value) : truthy y = true -> truthy (or_else x y) = true.
Proof. intros Hy. unfold or_else. destruct (truthy x) eqn:Hx; assumption. Qed.

(** X19. In a browser that has none of the three preference keys, or
    whose storage cannot be read, loading the preferences gives the
    defaults: the theme [system], the view mode [list], no filters; and
    the hook is loaded. *)
Theorem loadPreferences_defaults (st : Storage) (h : PreferencesHook) :
  getItem_throws st <> None
  \/ (items st !! PREFERENCE_KEYS.THEME = None
      /\ items st !! PREFERENCE_KEYS.VIEW_MODE = None
      /\ items st !! PREFERENCE_KEYS.FILTERS = None) ->
  loadPreferences st h
  = {| prefs := prefs initialPreferences; loaded := true |}.
Proof.
  intros Hcase.
  assert (Hnull : forall key,
            In key [PREFERENCE_KEYS.THEME; PREFERENCE_KEYS.VIEW_MODE;
                    PREFERENCE_KEYS.FILTERS] ->
            secureStorage.getItem st key = VNull).
  { intros key Hkey. destruct Hcase as [Hget|(Ht & Hv & Hf)].
    - destruct (getItem_throws st) as [e|] eqn:Hg; [|contradiction].
      now apply (getItem_unreadable st key e).
    - apply getItem_absent. destruct Hkey as [<-|[<-|[<-|[]]]]; assumption. }
  unfold loadPreferences, preferences.getTheme, preferences.getViewMode,
    preferences.getFilters.
  rewrite !Hnull by (simpl; auto). reflexivity.
Qed.

(** X20. On a working storage, a theme set through the hook is the theme
    a later load finds, and it agrees with the state of the hook; the
    view mode and the filters that a load finds are not affected. *)
Theorem setTheme_persists (st : Storage) (h h0 : PreferencesHook)
    (theme : ThemePreference) :
  getItem_throws st = None ->
  (forall text, setItem_throws st PREFERENCE_KEYS.THEME text = None) ->
  decryptData (encryptData (VStr (theme_text theme))) = VStr (theme_text theme) ->
  let st' := (setTheme st h theme).1 in
  pref_theme (prefs (loadPreferences st' h0)) = VStr (theme_text theme)
  /\ pref_theme (prefs (setTheme st h theme).2) = VStr (theme_text theme)
  /\ pref_viewMode (prefs (loadPreferences st' h0))
     = pref_viewMode (prefs (loadPreferences st h0))
  /\ pref_filters (prefs (loadPreferences st' h0))
     = pref_filters (prefs (loadPreferences st h0)).
Proof.
  intros Hget Hset Hdec st'. subst st'. unfold setTheme. simpl.
  unfold preferences.saveTheme.
  destruct (setItem_getItem st PREFERENCE_KEYS.THEME (VStr (theme_text theme)))
    as [_ Hread]; [now destruct theme | exact Hget | apply Hset | exact Hdec |].
  destruct (setItem_policy st PREFERENCE_KEYS.THEME (VStr (theme_text theme)))
    as (G & _ & _).
  assert (Hother : forall key, key <> PREFERENCE_KEYS.THEME -> ~ In key contactKeys ->
            secureStorage.getItem
              (secureStorage.setItem st PREFERENCE_KEYS.THEME (VStr (theme_text theme)))
              key = secureStorage.getItem st key).
  { intros key Hne Hk. apply getItem_ext; [exact G | now apply setItem_other]. }
  repeat split.
  - unfold preferences.getTheme. rewrite Hread. now destruct theme.
  - unfold preferences.getViewMode. rewrite Hother; [reflexivity | discriminate |].
    simpl. intros [Hk|[Hk|[Hk|[]]]]; discriminate.
  - unfold preferences.getFilters. rewrite Hother; [reflexivity | discriminate |].
    simpl. intros [Hk|[Hk|[Hk|[]]]]; discriminate.
Qed.

(** X21. On a working storage whose sync record is absent or a plain
    object as JSON keeps it, [saveLastSync] records the time stamp of
    its data type and keeps the stamps of the other data types:
    afterwards [getLastSync] returns the new stamp for the data type
    (when it is not 0) and what it returned before for any other. *)
Theorem saveLastSync_merges (st : Storage) (dataType other : string)
    (timestamp : Z) (fields : list (string * Value)) :
  let syncs := VObj (set_prop dataType (VNum timestamp) fields) in
  timestamp <> 0 -> other <> dataType ->
  getItem_throws st = None ->
  (forall text, setItem_throws st PREFERENCE_KEYS.LAST_SYNC text = None) ->
  or_else (secureStorage.getItem st PREFERENCE_KEYS.LAST_SYNC) (VObj []) = VObj fields ->
  json_clean (VObj fields) = VObj fields ->
  decryptData (encryptData syncs) = json_clean syncs ->
  preferences.getLastSync (preferences.saveLastSync st dataType timestamp) dataType
  = Some (VNum timestamp)
  /\ preferences.getLastSync (preferences.saveLastSync st dataType timestamp) other
     = preferences.getLastSync st other.
Proof.
  intros syncs Hts Hother Hget Hset Hcur Hclean Hdec.
  rewrite json_clean_obj in Hclean. injection Hclean as Hclean.
  assert (Hsyncs : json_clean syncs = syncs).
  { subst syncs. rewrite json_clean_obj. f_equal.
    apply set_prop_clean; [exact Hclean | reflexivity | discriminate]. }
  rewrite Hsyncs in Hdec.
  unfold preferences.saveLastSync. rewrite Hcur. simpl own_props. fold syncs.
  destruct (setItem_getItem st PREFERENCE_KEYS.LAST_SYNC syncs) as [_ Hread];
    [reflexivity | exact Hget | apply Hset | now rewrite Hsyncs |].
  rewrite Hsyncs in Hread.
  unfold preferences.getLastSync. rewrite Hread, Hcur. subst syncs.
  unfold or_else at 1 3. simpl truthy. cbv iota.
  rewrite assoc_set_prop_eq, (assoc_set_prop_ne _ _ _ _ Hother).
  split; [|reflexivity].
  unfold or_else. simpl. destruct (Z.eqb_spec timestamp 0); [contradiction|reflexivity].
Qed.

(** X22. On a working storage, filters saved through the hook (a plain
    object as JSON keeps it) come back from [getFilters] with the two
    stamps [lastUsed] and [lastUpdated], each with the time of its own
    clock reading, and with every other filter as given, while the state
    of the hook holds them with the stamp [lastUsed] only. *)
Theorem saveFilters_stamps (st : Storage) (h : PreferencesHook)
    (fields : list (string * Value)) (usedAt updatedAt : string) :
  let used := set_prop "lastUsed" (VStr usedAt) fields in
  let stored := VObj (set_prop "lastUpdated" (VStr updatedAt) used) in
  getItem_throws st = None ->
  (forall text, setItem_throws st PREFERENCE_KEYS.FILTERS text = None) ->
  json_clean (VObj fields) = VObj fields ->
  decryptData (encryptData stored) = json_clean stored ->
  preferences.getFilters (hook_saveFilters st h (VObj fields) usedAt updatedAt).1
  = stored
  /\ pref_filters (prefs (hook_saveFilters st h (VObj fields) usedAt updatedAt).2)
     = VObj used
  /\ get_field stored "lastUsed" = VStr usedAt
  /\ get_field stored "lastUpdated" = VStr updatedAt
  /\ (forall k, k <> "lastUsed" -> k <> "lastUpdated" ->
        get_field stored k = get_field (VObj fields) k).
Proof.
  intros used stored Hget Hset Hclean Hdec.
  rewrite json_clean_obj in Hclean. injection Hclean as Hclean.
  assert (Hstored : json_clean stored = stored).
  { subst stored used. rewrite json_clean_obj. f_equal.
    apply set_prop_clean; [|reflexivity|discriminate].
    apply set_prop_clean; [exact Hclean|reflexivity|discriminate]. }
  unfold hook_saveFilters, preferences.saveFilters. simpl own_props. cbn [fst snd].
  fold used. fold stored.
  destruct (setItem_getItem st PREFERENCE_KEYS.FILTERS stored) as [_ Hread];
    [reflexivity | exact Hget | apply Hset | exact Hdec |].
  rewrite Hstored in Hread.
  repeat split.
  - unfold preferences.getFilters. rewrite Hread. reflexivity.
  - subst stored used. simpl.
    rewrite assoc_set_prop_ne by discriminate. now rewrite assoc_set_prop_eq.
  - subst stored. simpl. now rewrite assoc_set_prop_eq.
  - intros k Hk1 Hk2. subst stored used. simpl.
    now rewrite !assoc_set_prop_ne by assumption.
Qed.

End PreferenceProperties.

(** X19 in a browser with an empty storage. *)
Lemma loadPreferences_defaults_witness :
  @loadPreferences Sim.libs Sim.emptyStorage initialPreferences
  = {| prefs := prefs initialPreferences; loaded := true |}.
Proof.
  apply (@loadPreferences_defaults Sim.libs Sim.emptyStorage initialPreferences).
  right. repeat split; reflexivity.
Defined.

(** X20 on the simulated libraries: the dark theme. *)
Lemma setTheme_persists_witness :
  let st' := (@setTheme Sim.libs Sim.emptyStorage initialPreferences dark).1 in
  pref_theme (prefs (@loadPreferences Sim.libs st' initialPreferences)) = VStr "dark"
  /\ pref_theme (prefs (@setTheme Sim.libs Sim.emptyStorage initialPreferences dark).2)
     = VStr "dark"
  /\ pref_viewMode (prefs (@loadPreferences Sim.libs st' initialPreferences))
     = pref_viewMode (prefs (@loadPreferences Sim.libs Sim.emptyStorage initialPreferences))
  /\ pref_filters (prefs (@loadPreferences Sim.libs st' initialPreferences))
     = pref_filters (prefs (@loadPreferences Sim.libs Sim.emptyStorage initialPreferences)).
Proof.
  apply (@setTheme_persists Sim.libs Sim.emptyStorage initialPreferences
           initialPreferences dark); reflexivity.
Defined.

(** X21 on the simulated libraries: the stamp of the contacts is added
    to a record that holds the stamp of the groups. *)
Lemma saveLastSync_merges_witness :
  let st := @preferences.saveLastSync Sim.libs Sim.emptyStorage "groups" 500 in
  @preferences.getLastSync Sim.libs
    (@preferences.saveLastSync Sim.libs st "contacts" 1000) "contacts"
  = Some (VNum 1000)
  /\ @preferences.getLastSync Sim.libs
       (@preferences.saveLastSync Sim.libs st "contacts" 1000) "groups"
     = @preferences.getLastSync Sim.libs st "groups".
Proof.
  intros st.
  apply (@saveLastSync_merges Sim.libs st "contacts" "groups" 1000
           [("groups", VNum 500)]);
    try reflexivity; try discriminate.
Defined.

(** X22 on the simulated libraries, the second clock reading one
    millisecond after the first. *)
Lemma saveFilters_stamps_witness :
  let fields := [("nameFilter", VStr "ann"); ("includeLabels", VArr [VStr "Friends"])] in
  let usedAt := "2025-06-08T10:00:00.000Z" in
  let updatedAt := "2025-06-08T10:00:00.001Z" in
  let used := set_prop "lastUsed" (VStr usedAt) fields in
  let stored := VObj (set_prop "lastUpdated" (VStr updatedAt) used) in
  @preferences.getFilters Sim.libs
    (@hook_saveFilters Sim.libs Sim.emptyStorage initialPreferences (VObj fields)
       usedAt updatedAt).1
  = stored
  /\ pref_filters
       (prefs (@hook_saveFilters Sim.libs Sim.emptyStorage initialPreferences
                 (VObj fields) usedAt updatedAt).2) = VObj used
  /\ get_field stored "lastUsed" = VStr usedAt
  /\ get_field stored "lastUpdated" = VStr updatedAt
  /\ (forall k, k <> "lastUsed" -> k <> "lastUpdated" ->
        get_field stored k = get_field (VObj fields) k).
Proof.
  intros fields usedAt updatedAt.
  apply (@saveFilters_stamps Sim.libs Sim.emptyStorage initialPreferences fields
           usedAt updatedAt);
    reflexivity.
Defined.

(** A stored time stamp of 0 reads as [null], and a data type that names
    an inherited property is outside the values of the model. *)
Example getLastSync_edges :
  let st := @preferences.saveLastSync Sim.libs Sim.emptyStorage "contacts" 0 in
  @preferences.getLastSync Sim.libs st "contacts" = Some VNull
  /\ @preferences.getLastSync Sim.libs st "groups" = Some VNull
  /\ @preferences.getLastSync Sim.libs st "toString" = None.
Proof. vm_compute. repeat split. Qed.

(** ** The pending requests of useSecureApi *)

Lemma existsb_eqb_In (c : nat) (l : list nat) :
  existsb (Nat.eqb c) l = true <-> In c l.
Proof.
  rewrite existsb_exists. split.
  - intros (x & Hx & Heq). apply Nat.eqb_eq in Heq. now subst.
  - intros Hc. exists c. split; [exact Hc | apply Nat.eqb_refl].
Qed.

Lemma length_filter_remove (c : nat) (l : list nat) :
  List.NoDup l -> In c l ->
  S (length (List.filter (fun x => negb (Nat.eqb x c)) l)) = length l.
Proof.
  induction 1 as [|x l Hx Hnd IH]; intros Hc; [contradiction|]. simpl.
  destruct (Nat.eqb_spec x c) as [->|Hne]; simpl.
  - f_equal. clear IH Hc. induction l as [|y l IHl]; [reflexivity|]. simpl.
    destruct (Nat.eqb_spec y c) as [->|Hy]; simpl.
    + exfalso. apply Hx. now left.
    + f_equal. apply IHl.
      * intros Hin. apply Hx. now right.
      * now inversion Hnd.
  - f_equal. apply IH. destruct Hc as [->|Hc]; [contradiction | exact Hc].
Qed.

Lemma NoDup_snoc (c : nat) (l : list nat) :
  List.NoDup l -> ~ In c l -> List.NoDup (l ++ [c]).
Proof.
  induction 1 as [|x l Hx Hnd IH]; intros Hc; simpl.
  - constructor; [intros [] | constructor].
  - constructor.
    + rewrite in_app_iff. intros [Hin|[<-|[]]]; [now apply Hx | apply Hc; now left].
    + apply IH. intros Hin. apply Hc. now right.
Qed.

Lemma api_run_consistent (events : list ApiEvent) :
  forall h pending final,
    api_consistent h pending ->
    well_formed pending events = Some final ->
    api_consistent (api_run h events) final.
Proof.
  induction events as [|event events IH]; intros h pending final Hinv Hwf.
  - simpl in Hwf. injection Hwf as <-. exact Hinv.
  - destruct Hinv as (Hm & Hnd & Hctl & Href & Hreq & Hload).
    destruct event as [c|c failure]; simpl in Hwf |- *.
    + destruct (existsb (Nat.eqb c) pending) eqn:Hc; [discriminate|].
      apply (IH _ (pending ++ [c]) final); [|exact Hwf].
      unfold begin_request, api_consistent. simpl. rewrite Hm, Hctl, Href.
      repeat split.
      * apply NoDup_snoc; [exact Hnd|].
        intros Hin. apply existsb_eqb_In in Hin. congruence.
      * rewrite length_app. simpl. lia.
      * symmetry. apply Z.ltb_lt. lia.
    + destruct (existsb (Nat.eqb c) pending) eqn:Hc; [|discriminate].
      apply existsb_eqb_In in Hc.
      pose proof (length_filter_remove c pending Hnd Hc) as Hlen.
      apply (IH _ (List.filter (fun x => negb (Nat.eqb x c)) pending) final);
        [|exact Hwf].
      unfold settle_request, api_consistent. simpl. rewrite Hm, Hctl, Href.
      assert (Hmax : Z.max 0 (Z.of_nat (length pending) - 1)
                     = Z.of_nat (length (List.filter (fun x => negb (Nat.eqb x c)) pending)))
        by lia.
      rewrite Hmax. repeat split.
      * now apply List.NoDup_filter.
      * simpl. destruct (Z.eqb_spec
                           (Z.of_nat (length (List.filter (fun x => negb (Nat.eqb x c)) pending))) 0)
          as [Hz|Hz].
        -- rewrite Hz. reflexivity.
        -- rewrite Hload, Href. symmetry.
           transitivity true; [apply Z.ltb_lt; lia | symmetry; apply Z.ltb_lt; lia].
Qed.

(** X23. While the hook is mounted, after any well-formed sequence of
    requests beginning and settling, in any interleaving and whatever
    their outcomes, the counter of pending requests is the number of
    requests that have begun and not settled, the published count agrees
    with it, the controllers kept are those of the pending requests, and
    the loading flag is set exactly when at least one request is
    pending. *)
Theorem api_loading_tracks_pending (events : list ApiEvent) (pending : list nat) :
  well_formed [] events = Some pending ->
  let h := api_run initialApi events in
  abortControllersRef h = pending
  /\ pendingRef h = Z.of_nat (length pending)
  /\ pendingRequests h = pendingRef h
  /\ (api_isLoading h = true <-> pending <> []).
Proof.
  intros Hwf h.
  destruct (api_run_consistent events initialApi [] pending) as
    (_ & _ & Hctl & Href & Hreq & Hload); [|exact Hwf|].
  { unfold api_consistent, initialApi. simpl. repeat split. constructor. }
  fold h in Hctl, Href, Hreq, Hload.
  split; [exact Hctl|]. split; [exact Href|]. split; [exact Hreq|].
  rewrite Hload, Href. split.
  - intros Hlt Hnil. rewrite Hnil in Hlt. simpl in Hlt. discriminate.
  - intros Hne. apply Z.ltb_lt.
    destruct pending; [contradiction | simpl; lia].
Qed.

(** X23 on three overlapping requests, two of them failing. *)
Lemma api_loading_tracks_pending_witness :
  let events := [Begin 1; Begin 2; Settle 1 (Some "Too many requests. Please try again later.");
                 Begin 3; Settle 3 None; Settle 2 (Some "Not authenticated")] in
  let h := api_run initialApi events in
  abortControllersRef h = []
  /\ pendingRef h = Z.of_nat (length (@nil nat))
  /\ pendingRequests h = pendingRef h
  /\ (api_isLoading h = true <-> @nil nat <> []).
Proof.
  intros events.
  apply (api_loading_tracks_pending events []). reflexivity.
Defined.

Section TransferProperties.
Context `{Libs}.
Variable ToString : Value -> string.

(** X24. What [fetchWithToken] makes of a request: without a token no
    request is sent; data comes back without an error only from an ok
    response whose body parses; every failure resolves to [null] with an
    error message; and [logout] is called for the status 401 alone. *)
Theorem transfer_outcomes (token : option string) (url : string)
    (options : ApiOptions) (http : HttpOutcome) :
  let r := transfer ToString token url options http in
  (api_request r = None <-> has_token token = false)
  /\ (api_failure r = None
      <-> has_token token = true
          /\ exists status data, http = Responded true status (inr data)
                                 /\ api_result r = data)
  /\ (api_failure r <> None -> api_result r = VNull)
  /\ (api_logout r = true
      <-> has_token token = true /\ exists body, http = Responded false 401 body).
Proof.
  intros r. subst r. unfold transfer.
  destruct (has_token token) eqn:Htok;
    [destruct http as [thrown|[] status [thrown|data]]|];
    try (destruct (Z.eqb_spec status 401) as [->|H401];
         [|destruct (Z.eqb_spec status 403) as [->|H403];
           [|destruct (Z.eqb_spec status 429) as [->|H429]]]);
    simpl;
    repeat match goal with
           | |- _ /\ _ => split
           | |- _ <-> _ => split
           | |- _ -> _ => intro
           | Hc : _ /\ _ |- _ => destruct Hc
           | Hc : exists _, _ |- _ => destruct Hc
           end;
    try discriminate; try congruence; eauto.
Qed.

End TransferProperties.

(** ** Token refresh and session restore *)

Lemma User_of_to_Value (u : User) : User_of_Value (User_to_Value u) = Some u.
Proof. destruct u; reflexivity. Qed.

Lemma refreshAccessToken_null (validConfig : bool) (popup : option string)
    (s : Session) :
  (refreshAccessToken validConfig popup s).1 = None.
Proof.
  unfold refreshAccessToken.
  destruct validConfig, (refreshingRef s), popup; reflexivity.
Qed.

(** [refreshAccessToken] touches neither the storage nor the session
    state nor the route. *)
Lemma refreshAccessToken_keeps (validConfig : bool) (popup : option string)
    (s : Session) :
  let s1 := (refreshAccessToken validConfig popup s).2 in
  storage (provider s1) = storage (provider s)
  /\ mountedRef (provider s1) = mountedRef (provider s)
  /\ authState (provider s1) = authState (provider s)
  /\ navigated (provider s1) = navigated (provider s).
Proof.
  unfold refreshAccessToken.
  destruct validConfig, (refreshingRef s), popup,
    (mountedRef (provider s)) eqn:Hm; simpl; rewrite ?Hm; repeat split.
Qed.

Lemma logout_mounted (p : AuthProvider) :
  mountedRef p = true ->
  authState (logout p) = unauthenticated
  /\ navigated (logout p) = "/login" :: navigated p.
Proof. intros Hm. unfold logout. simpl. rewrite Hm. split; reflexivity. Qed.

Lemma logout_storage (p q : AuthProvider) :
  storage p = storage q -> storage (logout p) = storage (logout q).
Proof.
  intros Hst. unfold logout. simpl. rewrite Hst.
  destruct (mountedRef p), (mountedRef q); reflexivity.
Qed.

(** X25. Refreshes do not overlap: with a valid configuration, a call of
    [refreshAccessToken] while none is in progress opens the login popup
    once and raises the guard, and any further call before a callback
    lowers it changes nothing; when opening the popup throws, the guard is
    lowered again at once. *)
Theorem refreshAccessToken_single_flight (s : Session) (again : option string)
    (message : string) :
  refreshingRef s = false ->
  let s1 := (refreshAccessToken true None s).2 in
  provider s1 = provider s
  /\ refreshingRef s1 = true
  /\ popups s1 = S (popups s)
  /\ refreshAccessToken true again s1 = (None, s1)
  /\ refreshingRef (refreshAccessToken true (Some message) s).2 = false
  /\ popups (refreshAccessToken true (Some message) s).2 = S (popups s).
Proof.
  intros Hguard. unfold refreshAccessToken. simpl. rewrite Hguard. simpl.
  repeat split.
Qed.

Section RefreshProperties.
Context `{Libs}.

Lemma stored_expired (st : Storage) (td : TokenData) (now : Z) :
  getStoredTokens st = Some td ->
  isTokenExpired st now None = (now + 5 * 60 * 1000 >=? expiresAt td)
  /\ isTokenExpired st now (Some td) = (now + 5 * 60 * 1000 >=? expiresAt td).
Proof.
  intros Hstored. pose proof (getStoredTokens_token st td Hstored) as Htok.
  unfold isTokenExpired. rewrite Hstored, Htok. split; reflexivity.
Qed.


(** X27. With a stored token that is expired or within five minutes of
    its expiry, [getAccessToken] on a mounted provider returns no token
    and logs the user out: the session is unauthenticated, the route is
    the login page and the storage is what [logout] leaves.  This holds
    also when the refresh has just opened the login popup. *)
Theorem getAccessToken_expired_logs_out (validConfig : bool)
    (popup : option string) (now : Z) (s : Session) (td : TokenData) :
  getStoredTokens (storage (provider s)) = Some td ->
  expiresAt td <= now + 5 * 60 * 1000 ->
  mountedRef (provider s) = true ->
  let out := getAccessToken validConfig popup now s in
  out.1 = None
  /\ authState (provider out.2) = unauthenticated
  /\ navigated (provider out.2) = "/login" :: navigated (provider s)
  /\ storage (provider out.2) = storage (logout (provider s))
  /\ (validConfig = true -> popup = None -> refreshingRef s = false ->
      popups out.2 = S (popups s) /\ refreshingRef out.2 = true).
Proof.
  intros Hstored Hle Hm. unfold getAccessToken. rewrite Hstored.
  destruct (stored_expired _ td now Hstored) as [Hexp _]. rewrite Hexp.
  assert (Hge : (now + 5 * 60 * 1000 >=? expiresAt td) = true)
    by (apply Z.geb_le; lia).
  rewrite Hge.
  pose proof (refreshAccessToken_null validConfig popup s) as Hnull.
  destruct (refreshAccessToken_keeps validConfig popup s) as (Kst & Km & Kau & Knav).
  destruct (refreshAccessToken validConfig popup s) as [newToken s1] eqn:Hr.
  simpl in Hnull, Kst, Km, Kau, Knav. subst newToken.
  change (has_token None) with false. cbv iota. rewrite Km, Hm.
  unfold session_logout, with_provider. cbn [fst snd provider].
  destruct (logout_mounted (provider s1)) as [Hau Hnav]; [now rewrite Km|].
  split; [reflexivity|]. split; [exact Hau|]. split; [now rewrite Hnav, Knav|].
  split; [now apply logout_storage|].
  intros -> -> Hguard. unfold refreshAccessToken in Hr. simpl in Hr.
  rewrite Hguard in Hr. injection Hr as <-. split; reflexivity.
Qed.

(** X28. On mount with a valid configuration, [initAuth] restores the
    session from the storage when it holds a user record and a token
    whose expiry lies more than five minutes ahead: the session is
    authenticated with that user and that token, with the stored expiry,
    and nothing else changes; no popup is opened. *)
Theorem initAuth_restores (popup : option string) (now later : Z) (s : Session)
    (u : User) (td : TokenData) :
  secureStorage.getItem (storage (provider s)) "user" = User_to_Value u ->
  getStoredTokens (storage (provider s)) = Some td ->
  now + 5 * 60 * 1000 < expiresAt td ->
  mountedRef (provider s) = true ->
  initAuth true popup now later s
  = Some (with_provider s
            (setAuthState (provider s)
               {| user := Some u;
                  tokens := Some {| access_token := token td;
                                    refresh_token := refreshToken td;
                                    id_token := None;
                                    expires_at := expiresAt td |};
                  isAuthenticated := true |})).
Proof.
  intros Huser Hstored Hlt Hm. unfold initAuth. simpl.
  rewrite Hstored, Huser.
  destruct (stored_expired _ td now Hstored) as [_ Hexp]. rewrite Hexp.
  assert (Hge : (now + 5 * 60 * 1000 >=? expiresAt td) = false)
    by (rewrite Z.geb_leb; apply Z.leb_gt; lia).
  rewrite Hge, User_of_to_Value, Hm. reflexivity.
Qed.

(** X29. On mount with a valid configuration and a mounted provider,
    when the storage holds a user and a token that is expired or within
    five minutes of its expiry, and the clock does not run backwards
    between the two checks, [initAuth] ends in a logout, whether or not
    the refresh opened the login popup: the session is unauthenticated,
    the route is the login page and the storage is what [logout]
    leaves. *)
Theorem initAuth_expired_logs_out (popup : option string) (now later : Z)
    (s : Session) (td : TokenData) :
  truthy (secureStorage.getItem (storage (provider s)) "user") = true ->
  getStoredTokens (storage (provider s)) = Some td ->
  expiresAt td <= now + 5 * 60 * 1000 ->
  now <= later ->
  mountedRef (provider s) = true ->
  exists s', initAuth true popup now later s = Some s'
             /\ authState (provider s') = unauthenticated
             /\ navigated (provider s') = "/login" :: navigated (provider s)
             /\ storage (provider s') = storage (logout (provider s)).
Proof.
  intros Huser Hstored Hle Hclock Hm. unfold initAuth.
  change (negb true) with false. cbv iota. cbv zeta.
  rewrite Hstored, Huser.
  destruct (stored_expired _ td now Hstored) as [_ Hexp]. rewrite Hexp.
  destruct (stored_expired _ td later Hstored) as [_ Hexp']. rewrite Hexp'.
  assert (Hge : (now + 5 * 60 * 1000 >=? expiresAt td) = true)
    by (apply Z.geb_le; lia).
  assert (Hge' : (later + 5 * 60 * 1000 >=? expiresAt td) = true)
    by (apply Z.geb_le; lia).
  rewrite Hge, Hge'. simpl negb. cbv iota.
  pose proof (refreshAccessToken_null true popup s) as Hnull.
  destruct (refreshAccessToken_keeps true popup s) as (Kst & Km & Kau & Knav).
  destruct (refreshAccessToken true popup s) as [newToken s1].
  simpl in Hnull, Kst, Km, Kau, Knav. subst newToken.
  change (has_token None) with false. rewrite Km, Hm.
  change (negb false && true) with true. cbv iota.
  eexists. split; [reflexivity|].
  unfold session_logout, with_provider. cbn [provider].
  destruct (logout_mounted (provider s1)) as [Hau Hnav]; [now rewrite Km|].
  split; [exact Hau|]. split; [now rewrite Hnav, Knav|].
  now apply logout_storage.
Qed.


End RefreshProperties.

(** X25 on the reloaded provider. *)
Lemma refreshAccessToken_single_flight_witness :
  let s1 := (refreshAccessToken true None SimRefresh.reloaded).2 in
  provider s1 = provider SimRefresh.reloaded
  /\ refreshingRef s1 = true
  /\ popups s1 = S (popups SimRefresh.reloaded)
  /\ refreshAccessToken true (Some "Popup window closed") s1 = (None, s1)
  /\ refreshingRef (refreshAccessToken true (Some "blocked") SimRefresh.reloaded).2
     = false
  /\ popups (refreshAccessToken true (Some "blocked") SimRefresh.reloaded).2
     = S (popups SimRefresh.reloaded).
Proof.
  apply (refreshAccessToken_single_flight SimRefresh.reloaded
           (Some "Popup window closed") "blocked").
  reflexivity.
Defined.


(** X27 on the reloaded provider, 57 minutes after the sign-in. *)
Lemma getAccessToken_expired_logs_out_witness :
  let out := @getAccessToken Sim.libs true None 3421000 SimRefresh.reloaded in
  out.1 = None
  /\ authState (provider out.2) = unauthenticated
  /\ navigated (provider out.2) = "/login" :: navigated (provider SimRefresh.reloaded)
  /\ storage (provider out.2) = storage (logout (provider SimRefresh.reloaded))
  /\ (true = true -> @None string = None -> refreshingRef SimRefresh.reloaded = false ->
      popups out.2 = S (popups SimRefresh.reloaded) /\ refreshingRef out.2 = true).
Proof.
  apply (@getAccessToken_expired_logs_out Sim.libs true None 3421000
           SimRefresh.reloaded
           {| token := "ya29.a0AfH6SMB"; refreshToken := None;
              expiresAt := 3601000 |});
    [reflexivity | simpl; lia | reflexivity].
Defined.

(** X28 on the reloaded provider, one second after the sign-in. *)
Lemma initAuth_restores_witness :
  @initAuth Sim.libs true None 2000 2001 SimRefresh.reloaded
  = Some (with_provider SimRefresh.reloaded
            (setAuthState (provider SimRefresh.reloaded)
               {| user := Some SimSession.alice;
                  tokens := Some {| access_token := "ya29.a0AfH6SMB";
                                    refresh_token := None;
                                    id_token := None;
                                    expires_at := 3601000 |};
                  isAuthenticated := true |})).
Proof.
  apply (@initAuth_restores Sim.libs None 2000 2001 SimRefresh.reloaded
           SimSession.alice
           {| token := "ya29.a0AfH6SMB"; refreshToken := None;
              expiresAt := 3601000 |});
    [reflexivity | reflexivity | simpl; lia | reflexivity].
Defined.

(** X29 on the reloaded provider, 57 minutes after the sign-in. *)
Lemma initAuth_expired_logs_out_witness :
  exists s', @initAuth Sim.libs true None 3421000 3421001 SimRefresh.reloaded
             = Some s'
             /\ authState (provider s') = unauthenticated
             /\ navigated (provider s')
                = "/login" :: navigated (provider SimRefresh.reloaded)
             /\ storage (provider s')
                = storage (logout (provider SimRefresh.reloaded)).
Proof.
  apply (@initAuth_expired_logs_out Sim.libs None 3421000 3421001
           SimRefresh.reloaded
           {| token := "ya29.a0AfH6SMB"; refreshToken := None;
              expiresAt := 3601000 |});
    [reflexivity | reflexivity | simpl; lia | lia | reflexivity].
Defined.

